(** * VoxTube backend: the HTTP routes of the video-conversation pipeline

    A shallow embedding of the Express router (routes file of the backend)
    and of the stores and collaborators it drives.  Each route handler is
    an [async] function: the code between two [await]s runs without
    interruption on the shared stores, and at every [await] other requests
    may run.  Handlers are therefore written in a resumption monad whose
    computations stop at each [await]; a server state holds the stores and
    the requests in flight, and a schedule (a list of events) picks which
    request advances next. *)

From stdpp Require Import gmap strings list fin_maps pretty.
From Stdlib Require Import Qcanon.

Local Open Scope string_scope.

(** ** JavaScript values *)

(** The values a JSON request body holds.  Numbers that arrive through
    JSON are finite; they are kept as exact rationals (the routes compare
    and look them up, they never compute with them).  Objects and arrays
    are opaque: the routes never look inside one. *)
Inductive JValue :=
| JUndefined
| JNull
| JBool (b : bool)
| JNum (n : Qc)
| JStr (s : string)
| JArray
| JObject.

Global Instance JValue_eq_dec : EqDecision JValue.
Proof. solve_decision. Defined.

(** [!v] is false exactly on the truthy values. *)
Definition truthy (v : JValue) : bool :=
  match v with
  | JUndefined | JNull => false
  | JBool b => b
  | JNum n => negb (bool_decide (n = 0%Qc))
  | JStr s => negb (bool_decide (s = ""))
  | JArray | JObject => true
  end.

(** A string-or-absent value read in a condition: the empty string is
    falsy, like [undefined] and [null]. *)
Definition as_truthy (o : option string) : option string :=
  match o with
  | Some s => if bool_decide (s = "") then None else Some s
  | None => None
  end.
Global Arguments as_truthy : simpl never.

(** [req.body]: an object; a key that is absent reads as [undefined]. *)
Definition field (body : gmap string JValue) (key : string) : JValue :=
  default JUndefined (body !! key).

(** What a rejected promise or a [throw] carries: an [Error] with its
    message; [undefined] or [null]; or another value, with what its
    [message] property reads as (a string, or nothing). *)
Inductive Exn :=
| JsError (message : string)
| JsOther (message : option string)
| JsNullish.

(** [error instanceof Error ? error.message : 'Unknown error'] *)
Definition error_message (e : Exn) : string :=
  match e with
  | JsError m => m
  | JsOther _ | JsNullish => "Unknown error"
  end.

(** [error.message], read without a guard: on [undefined] and [null] the
    read itself throws (the message of the [TypeError] names the value
    read from). *)
Definition unguarded_message (e : Exn) : Exn + option string :=
  match e with
  | JsError m => inr (Some m)
  | JsOther m => inr m
  | JsNullish =>
      inl (JsError "Cannot read properties of undefined (reading 'message')")
  end.

(** ** Data model *)

Record TranscriptSegment := {
  start : Qc;
  end_ : Qc;
  text : string
}.

(** ** The cache store ([cacheService]) *)

Module cacheService.

(** One video's entry: [{ voiceId?, speakerName?, voiceSamplePath? }]. *)
Record CacheEntry := {
  voiceId : option string;
  speakerName : option string;
  voiceSamplePath : option string
}.

Definition empty_entry : CacheEntry :=
  {| voiceId := None; speakerName := None; voiceSamplePath := None |}.

(** Modelled from the spec: the cache service is not among the sources.
    Section 4.1: [merge(videoId, partialEntry)] updates only the supplied
    fields, last writer wins per field. *)
Definition merge (old new : CacheEntry) : CacheEntry :=
  {| voiceId := from_option Some (voiceId old) (voiceId new);
     speakerName := from_option Some (speakerName old) (speakerName new);
     voiceSamplePath :=
       from_option Some (voiceSamplePath old) (voiceSamplePath new) |}.

(** Modelled from the spec: section 4.1, [get(videoId)] gives the entry or
    absent. *)
Definition getVideoData (videoId : string)
    (c : gmap string CacheEntry) : option CacheEntry :=
  c !! videoId.

(** Modelled from the spec: the [voiceId] field of [get(videoId)]. *)
Definition getVoiceId (videoId : string)
    (c : gmap string CacheEntry) : option string :=
  c !! videoId ≫= voiceId.

(** Modelled from the spec: section 4.1, every mutation is a [merge]. *)
Definition setVideoData (videoId : string) (data : CacheEntry)
    (c : gmap string CacheEntry) : gmap string CacheEntry :=
  <[videoId := merge (default empty_entry (c !! videoId)) data]> c.

End cacheService.

Global Arguments cacheService.getVideoData : simpl never.
Global Arguments cacheService.getVoiceId : simpl never.
Global Arguments cacheService.setVideoData : simpl never.

(** ** The session store ([memoryService]) *)

Module memoryService.

(** One video's working state.  Besides the fields section 3 of the spec
    lists, the routes read [voiceSamplePath] and write [speakerName]. *)
Record VideoData := {
  transcript : option (list TranscriptSegment);
  voiceId : option string;
  agentId : option string;
  speakerName : option string;
  voiceSamplePath : option string;
  questionCount : nat;
  contextWindowCache : gmap Qc string
}.

(** Modelled from the spec: section 4.2, [getOrCreate] creates an empty
    record with [questionCount = 0] on first access. *)
Definition empty_record : VideoData :=
  {| transcript := None; voiceId := None; agentId := None;
     speakerName := None; voiceSamplePath := None;
     questionCount := 0%nat; contextWindowCache := ∅ |}.

Definition getOrCreate (videoId : string)
    (m : gmap string VideoData) : VideoData :=
  default empty_record (m !! videoId).

(** The fields a partial write may supply. *)
Record Partial := {
  p_transcript : option (list TranscriptSegment);
  p_voiceId : option string;
  p_agentId : option string;
  p_speakerName : option string;
  p_voiceSamplePath : option string
}.

Definition no_fields : Partial :=
  {| p_transcript := None; p_voiceId := None; p_agentId := None;
     p_speakerName := None; p_voiceSamplePath := None |}.

Definition update (r : VideoData) (p : Partial) : VideoData :=
  {| transcript := from_option Some (transcript r) (p_transcript p);
     voiceId := from_option Some (voiceId r) (p_voiceId p);
     agentId := from_option Some (agentId r) (p_agentId p);
     speakerName := from_option Some (speakerName r) (p_speakerName p);
     voiceSamplePath :=
       from_option Some (voiceSamplePath r) (p_voiceSamplePath p);
     questionCount := questionCount r;
     contextWindowCache := contextWindowCache r |}.

(** Modelled from the spec: the session store is not among the sources.
    A write of some fields keeps the others (sections 3 and 4.2). *)
Definition setVideoData (videoId : string) (p : Partial)
    (m : gmap string VideoData) : gmap string VideoData :=
  <[videoId := update (getOrCreate videoId m) p]> m.

(** Modelled from the spec: section 4.2, the setters. *)
Definition setTranscript (videoId : string) (t : list TranscriptSegment)
    (m : gmap string VideoData) : gmap string VideoData :=
  setVideoData videoId
    {| p_transcript := Some t; p_voiceId := None; p_agentId := None;
       p_speakerName := None; p_voiceSamplePath := None |} m.

Definition setVoiceId (videoId v : string)
    (m : gmap string VideoData) : gmap string VideoData :=
  setVideoData videoId
    {| p_transcript := None; p_voiceId := Some v; p_agentId := None;
       p_speakerName := None; p_voiceSamplePath := None |} m.

Definition setAgentId (videoId a : string)
    (m : gmap string VideoData) : gmap string VideoData :=
  setVideoData videoId
    {| p_transcript := None; p_voiceId := None; p_agentId := Some a;
       p_speakerName := None; p_voiceSamplePath := None |} m.

(** Modelled from the spec: the getters read the record and create
    nothing; an unknown video has no data and has asked no question. *)
Definition getVideoData (videoId : string)
    (m : gmap string VideoData) : option VideoData :=
  m !! videoId.

Definition getTranscript (videoId : string)
    (m : gmap string VideoData) : option (list TranscriptSegment) :=
  m !! videoId ≫= transcript.

Definition getVoiceId (videoId : string)
    (m : gmap string VideoData) : option string :=
  m !! videoId ≫= voiceId.

Definition getAgentId (videoId : string)
    (m : gmap string VideoData) : option string :=
  m !! videoId ≫= agentId.

Definition getQuestionCount (videoId : string)
    (m : gmap string VideoData) : nat :=
  from_option questionCount 0%nat (m !! videoId).

(** Modelled from the spec: section 4.2, [incrementQuestionCount] is a
    read-modify-write of the counter of the (possibly new) record. *)
Definition incrementQuestionCount (videoId : string)
    (m : gmap string VideoData) : gmap string VideoData :=
  let r := getOrCreate videoId m in
  <[videoId :=
      {| transcript := transcript r; voiceId := voiceId r;
         agentId := agentId r; speakerName := speakerName r;
         voiceSamplePath := voiceSamplePath r;
         questionCount := S (questionCount r);
         contextWindowCache := contextWindowCache r |}]> m.

(** Modelled from the spec: section 4.2, the context-window cache matches
    [pausedTime] exactly. *)
Definition cacheContextWindow (videoId : string) (pausedTime : Qc)
    (contextWindow : string)
    (m : gmap string VideoData) : gmap string VideoData :=
  let r := getOrCreate videoId m in
  <[videoId :=
      {| transcript := transcript r; voiceId := voiceId r;
         agentId := agentId r; speakerName := speakerName r;
         voiceSamplePath := voiceSamplePath r;
         questionCount := questionCount r;
         contextWindowCache :=
           <[pausedTime := contextWindow]> (contextWindowCache r) |}]> m.

Definition getCachedContextWindow (videoId : string) (pausedTime : Qc)
    (m : gmap string VideoData) : option string :=
  m !! videoId ≫= λ r, contextWindowCache r !! pausedTime.

End memoryService.

Global Arguments memoryService.getVideoData : simpl never.
Global Arguments memoryService.getTranscript : simpl never.
Global Arguments memoryService.getVoiceId : simpl never.
Global Arguments memoryService.getAgentId : simpl never.
Global Arguments memoryService.getQuestionCount : simpl never.
Global Arguments memoryService.getCachedContextWindow : simpl never.
Global Arguments memoryService.setVideoData : simpl never.
Global Arguments memoryService.setTranscript : simpl never.
Global Arguments memoryService.setVoiceId : simpl never.
Global Arguments memoryService.setAgentId : simpl never.
Global Arguments memoryService.incrementQuestionCount : simpl never.
Global Arguments memoryService.cacheContextWindow : simpl never.

(** ** The job queue ([videoQueue]) *)

Inductive JobState := queued | active | completed | failed.

Record JobData := {
  job_videoId : string;
  job_videoUrl : JValue;
  job_speakerName : JValue
}.

Record Job := {
  id : string;
  name : string;
  data : JobData;
  state : JobState;
  progress : nat;
  returnvalue : JValue
}.

(** Modelled from the spec: the queue service is not among the sources.
    Section 4.5: the queue issues a fresh id per submission (here the
    position in the queue, printed), a new job is queued, and a job stays
    queryable by id. *)
Definition queue_add (name : string) (data : JobData)
    (q : list Job) : Job :=
  {| id := pretty (S (length q)); name := name; data := data;
     state := queued; progress := 0; returnvalue := JUndefined |}.

Definition queue_getJob (jobId : string) (q : list Job) : option Job :=
  list_find (λ j, id j = jobId) q ≫= λ p, Some p.2.

(** ** The state the routes share *)

(** A call a route awaits, indexed by the type of its result. *)
Inductive Call : Type → Type :=
| QueueAdd (name : string) (data : JobData) : Call Job
| QueueGetJob (jobId : string) : Call (option Job)
| JobGetState (job : Job) : Call JobState
| CacheGetVoiceId (videoId : string) : Call (option string)
| CacheGetVideoData (videoId : string)
  : Call (option cacheService.CacheEntry)
| CacheSetVideoData (videoId : string) (data : cacheService.CacheEntry)
  : Call unit
| DownloadAudioSegment (videoUrl pausedTime : JValue) : Call string
| TranscribeAudio (audioPath : string) : Call (list TranscriptSegment)
| ExtractVoiceSample (audioPath : string) (seconds : nat) : Call string
| CloneVoice (speakerName : JValue) (samplePath : string) : Call string
| Cleanup (path : string) : Call unit
| CreateAgent (speakerName : JValue) (voiceId contextWindow : string)
  : Call string
| StreamConversation (agentId text : string) : Call JValue
| GenerateSpeech (voiceId text : string) : Call (list Byte.byte)
| AsyncLocal : Call unit.

(** A call as the log of invocations keeps it. *)
Inductive Invocation :=
| Invoke : ∀ X : Type, Call X → Invocation.
Arguments Invoke {X} c.

(** How an awaited promise settles. *)
Inductive Reply (X : Type) :=
| Resolved (x : X)
| Rejected (e : Exn).
Arguments Resolved {X} x.
Arguments Rejected {X} e.

(** The stores, the transient audio files on disk, and the log of every
    call issued so far (oldest first). *)
Record World := {
  cache : gmap string cacheService.CacheEntry;
  memory : gmap string memoryService.VideoData;
  queue : list Job;
  files : gset string;
  invocations : list Invocation
}.

Definition boot : World :=
  {| cache := ∅; memory := ∅; queue := []; files := ∅; invocations := [] |}.

Definition with_cache (f : gmap string cacheService.CacheEntry →
                           gmap string cacheService.CacheEntry)
    (w : World) : World :=
  {| cache := f (cache w); memory := memory w; queue := queue w;
     files := files w; invocations := invocations w |}.

Definition with_memory (f : gmap string memoryService.VideoData →
                            gmap string memoryService.VideoData)
    (w : World) : World :=
  {| cache := cache w; memory := f (memory w); queue := queue w;
     files := files w; invocations := invocations w |}.

Definition with_queue (f : list Job → list Job) (w : World) : World :=
  {| cache := cache w; memory := memory w; queue := f (queue w);
     files := files w; invocations := invocations w |}.

Definition with_files (f : gset string → gset string) (w : World) : World :=
  {| cache := cache w; memory := memory w; queue := queue w;
     files := f (files w); invocations := invocations w |}.

Definition logged {X} (c : Call X) (w : World) : World :=
  {| cache := cache w; memory := memory w; queue := queue w;
     files := files w; invocations := (invocations w ++ [Invoke c])%list |}.

(** What completing a call does, given how the environment lets it settle.
    A rejected call leaves the world as it was.  A store operation that
    resolves takes its result from the store, whatever value the
    environment offered; a collaborator's value is the environment's, and
    the audio files it names appear on (or leave) the disk. *)
Definition perform {X} (c : Call X) : Reply X → World → World * Reply X :=
  match c in Call X return Reply X → World → World * Reply X with
  | QueueAdd name data => λ o w,
      match o with
      | Resolved _ =>
          let job := queue_add name data (queue w) in
          (with_queue (λ q, (q ++ [job])%list) w, Resolved job)
      | Rejected e => (w, Rejected e)
      end
  | QueueGetJob jobId => λ o w,
      match o with
      | Resolved _ => (w, Resolved (queue_getJob jobId (queue w)))
      | Rejected e => (w, Rejected e)
      end
  | JobGetState job => λ o w,
      match o with
      | Resolved _ =>
          (w, Resolved (from_option state (state job)
                          (queue_getJob (id job) (queue w))))
      | Rejected e => (w, Rejected e)
      end
  | CacheGetVoiceId videoId => λ o w,
      match o with
      | Resolved _ => (w, Resolved (cacheService.getVoiceId videoId (cache w)))
      | Rejected e => (w, Rejected e)
      end
  | CacheGetVideoData videoId => λ o w,
      match o with
      | Resolved _ =>
          (w, Resolved (cacheService.getVideoData videoId (cache w)))
      | Rejected e => (w, Rejected e)
      end
  | CacheSetVideoData videoId data => λ o w,
      match o with
      | Resolved _ =>
          (with_cache (cacheService.setVideoData videoId data) w,
           Resolved ())
      | Rejected e => (w, Rejected e)
      end
  | DownloadAudioSegment _ _ => λ o w,
      match o with
      | Resolved audioPath => (with_files (λ fs, {[audioPath]} ∪ fs) w, o)
      | Rejected _ => (w, o)
      end
  | ExtractVoiceSample _ _ => λ o w,
      match o with
      | Resolved samplePath => (with_files (λ fs, {[samplePath]} ∪ fs) w, o)
      | Rejected _ => (w, o)
      end
  | Cleanup path => λ o w,
      match o with
      | Resolved _ => (with_files (λ fs, fs ∖ {[path]}) w, o)
      | Rejected _ => (w, o)
      end
  | TranscribeAudio _ => λ o w, (w, o)
  | CloneVoice _ _ => λ o w, (w, o)
  | CreateAgent _ _ _ => λ o w, (w, o)
  | StreamConversation _ _ => λ o w, (w, o)
  | GenerateSpeech _ _ => λ o w, (w, o)
  | AsyncLocal => λ o w, (w, Resolved ())
  end.

(** ** Asynchronous computations *)

(** Where a computation stands when it gives up control: it has returned,
    it has thrown, or it awaits a call, with the code that runs on the
    shared world once the call has settled. *)
#[warnings="-register-all"]
Inductive Res (A : Type) : Type :=
| Ret (a : A)
| Throw (e : Exn)
| Wait {X : Type} (c : Call X) (k : Reply X → World → World * Res A).
Arguments Ret {A} a.
Arguments Throw {A} e.
Arguments Wait {A X} c k.

(** A stretch of code that runs without interruption up to its next
    [await]. *)
Definition M (A : Type) : Type := World → World * Res A.

Definition ret {A} (a : A) : M A := λ w, (w, Ret a).
Definition throw {A} (e : Exn) : M A := λ w, (w, Throw e).

Fixpoint bind_res {A B} (r : Res A) (f : A → M B) (w : World)
    : World * Res B :=
  match r with
  | Ret a => f a w
  | Throw e => (w, Throw e)
  | Wait c k =>
      (w, Wait c (λ o w', let (w'', r') := k o w' in bind_res r' f w''))
  end.

Definition bind {A B} (m : M A) (f : A → M B) : M B :=
  λ w, let (w', r) := m w in bind_res r f w'.

(** [try { body } catch (error) { handler }] *)
Fixpoint catch_res {A} (r : Res A) (h : Exn → M A) (w : World)
    : World * Res A :=
  match r with
  | Ret a => (w, Ret a)
  | Throw e => h e w
  | Wait c k =>
      (w, Wait c (λ o w', let (w'', r') := k o w' in catch_res r' h w''))
  end.

Definition try_catch {A} (body : M A) (h : Exn → M A) : M A :=
  λ w, let (w', r) := body w in catch_res r h w'.

(** [await call]: the call is issued (and logged) now; the code after it
    runs once it has settled, and a rejection is thrown there. *)
Definition await {X} (c : Call X) : M X :=
  λ w, (logged c w,
        Wait c (λ o w', (w', match o with
                             | Resolved x => Ret x
                             | Rejected e => Throw e
                             end))).

(** Reads and writes of the session store, which are synchronous. *)
Definition read_memory {A} (f : gmap string memoryService.VideoData → A)
    : M A :=
  λ w, (w, Ret (f (memory w))).

Definition write_memory (f : gmap string memoryService.VideoData →
                             gmap string memoryService.VideoData)
    : M unit :=
  λ w, (with_memory f w, Ret ()).

Notation "x <- m ;; k" := (bind m (λ x, k))
  (at level 100, m at next level, right associativity).
Notation "m ;; k" := (bind m (λ _, k))
  (at level 100, right associativity).

(** [await] of a local [async] function that awaits nothing itself: its
    body has run by the time the caller is suspended, and the caller goes
    on (or catches what the body threw) in a later turn. *)
Definition tick : M unit :=
  λ w, (w, Wait AsyncLocal (λ _ w', (w', Ret ()))).

Definition await_async {A} (body : M A) : M A :=
  try_catch (a <- body ;; tick ;; ret a) (λ e, tick ;; throw e).

(** ** Responses *)

(** The [details] of an error body: absent, the issues a schema found
    (path and message), or a message. *)
Inductive Details :=
| NoDetails
| Issues (errors : list (string * string))
| Detail (message : string).

Inductive Payload :=
| ApiError (error : string) (details : Details)
| JobAccepted (message jobId : string)
| JobStatus (id : string) (state : JobState) (progress : nat)
    (returnValue : JValue)
| InstantContextResponse (videoId voiceId contextWindow : string)
| CloneVoiceResponse (videoId voiceId message : string)
| GetContextWindowResponse (contextWindow : string)
| BuildConversationResponse (conversation : JValue)
| AgentResponse (agent_id : string)
| RelayResponse (response : JValue)
| StreamingUrlResponse (url : string)
| AudioResponse (contentType contentLength : string)
    (audioBuffer : list Byte.byte).

Record Response := {
  status : nat;
  payload : Payload
}.

(** [res.json(payload)] answers with status 200. *)
Definition json (p : Payload) : Response :=
  {| status := 200; payload := p |}.

(** [sendError(res, status, message, details)] *)
Definition sendError (status : nat) (message : string)
    (details : Details) : Response :=
  {| status := status; payload := ApiError message details |}.

(** How [POST /instant-context] ends once [error] has reached its
    [catch]: 500 with [error.message] as details, or, when reading the
    message throws, with that exception and no response. *)
Definition instant_context_failed (error : Exn) : Exn + Response :=
  match unguarded_message error with
  | inl thrown => inl thrown
  | inr message =>
      inr {| status := 500;
             payload :=
               ApiError "Failed to get instant context"
                 (from_option Detail NoDetails message) |}
  end.

(** ** Validation schemas *)

(** The checks of the schema library the routes use.  A check gives the
    value, or the message of the issue it raises. *)
Definition z_type_name (v : JValue) : string :=
  match v with
  | JUndefined => "undefined"
  | JNull => "null"
  | JBool _ => "boolean"
  | JNum _ => "number"
  | JStr _ => "string"
  | JArray => "array"
  | JObject => "object"
  end.

Definition invalid_type (expected : string) (v : JValue) : string :=
  match v with
  | JUndefined => "Required"
  | _ => "Expected " ++ expected ++ ", received " ++ z_type_name v
  end.

(** [z.string().min(1, message)] *)
Definition z_string_min1 (message : string) (v : JValue) : string + string :=
  match v with
  | JStr s => if bool_decide (s = "") then inl message else inr s
  | _ => inl (invalid_type "string" v)
  end.

(** [z.number().min(0, message)] *)
Definition z_number_min0 (message : string) (v : JValue) : string + Qc :=
  match v with
  | JNum n => if bool_decide (0 ≤ n)%Qc then inr n else inl message
  | _ => inl (invalid_type "number" v)
  end.

(** The issue of one key of an object schema, if its check raised one. *)
Definition issue {A} (path : string) (r : string + A)
    : list (string * string) :=
  match r with
  | inl message => [(path, message)]
  | inr _ => []
  end.

Definition cloneVoiceSchema (isURL : string → bool)
    (body : gmap string JValue)
    : list (string * string) + (string * string * string) :=
  let videoId := z_string_min1 "Video ID is required" (field body "videoId") in
  let speakerName :=
    z_string_min1 "Speaker name is required" (field body "speakerName") in
  let sampleUrl :=
    match field body "sampleUrl" with
    | JStr s => if isURL s then inr s else inl "Invalid sample URL"
    | v => inl (invalid_type "string" v)
    end in
  match videoId, speakerName, sampleUrl with
  | inr v, inr n, inr u => inr (v, n, u)
  | _, _, _ =>
      inl (issue "videoId" videoId ++ issue "speakerName" speakerName
           ++ issue "sampleUrl" sampleUrl)%list
  end.

Definition getContextWindowSchema (body : gmap string JValue)
    : list (string * string) + (string * Qc) :=
  let videoId := z_string_min1 "Video ID is required" (field body "videoId") in
  let pausedTime :=
    z_number_min0 "Paused time must be non-negative"
      (field body "pausedTime") in
  match videoId, pausedTime with
  | inr v, inr t => inr (v, t)
  | _, _ => inl (issue "videoId" videoId ++ issue "pausedTime" pausedTime)%list
  end.

Definition buildConversationSchema (body : gmap string JValue)
    : list (string * string)
      + (string * string * string * string * string) :=
  let videoId := z_string_min1 "Video ID is required" (field body "videoId") in
  let voiceId := z_string_min1 "Voice ID is required" (field body "voiceId") in
  let speakerName :=
    z_string_min1 "Speaker name is required" (field body "speakerName") in
  let contextWindow :=
    z_string_min1 "Context window is required"
      (field body "contextWindow") in
  let userQuestionText :=
    z_string_min1 "User question is required"
      (field body "userQuestionText") in
  match videoId, voiceId, speakerName, contextWindow, userQuestionText with
  | inr v, inr o, inr n, inr c, inr q => inr (v, o, n, c, q)
  | _, _, _, _, _ =>
      inl (issue "videoId" videoId ++ issue "voiceId" voiceId
           ++ issue "speakerName" speakerName
           ++ issue "contextWindow" contextWindow
           ++ issue "userQuestionText" userQuestionText)%list
  end.

Definition speakSchema (body : gmap string JValue)
    : list (string * string) + (string * string) :=
  let voiceId := z_string_min1 "Voice ID is required" (field body "voiceId") in
  let text := z_string_min1 "Text is required" (field body "text") in
  match voiceId, text with
  | inr v, inr t => inr (v, t)
  | _, _ => inl (issue "voiceId" voiceId ++ issue "text" text)%list
  end.

Definition streamConversationSchema (body : gmap string JValue)
    : list (string * string) + (string * string) :=
  let videoId := z_string_min1 "Video ID is required" (field body "videoId") in
  let text := z_string_min1 "Text is required" (field body "text") in
  match videoId, text with
  | inr v, inr t => inr (v, t)
  | _, _ => inl (issue "videoId" videoId ++ issue "text" text)%list
  end.

(** [prepareContextSchema]: declared by the routes file, used by none of
    its routes. *)
Definition prepareContextSchema (isURL : string → bool)
    (body : gmap string JValue) : list (string * string) + string :=
  match field body "videoUrl" with
  | JStr s => if isURL s then inr s else inl [("videoUrl", "Invalid video URL")]
  | v => inl [("videoUrl", invalid_type "string" v)]
  end.

(** ** The routes *)

(** What the routes take from the configuration ([config]), from the
    schema library ([isURL], the test behind [z.string().url()]) and from
    the services that are not among the sources.  [extractVideoId] is fed
    the unchecked request body, so it may also throw. *)
Class Env := {
  MAX_QUESTIONS_PER_VIDEO : nat;
  MAX_CONTEXT_WINDOW_SECONDS : Qc;
  isURL : string → bool;
  extractVideoId : JValue → Exn + option string;
  getContextWindow : list TranscriptSegment → Qc → Qc → string;
  buildConversationConfig : string → string → string → string → JValue;
  getStreamingWebSocketUrl : string → string
}.

Section Routes.

Context {env : Env}.

Definition youtubeService_extractVideoId (videoUrl : JValue)
    : M (option string) :=
  match extractVideoId videoUrl with
  | inl e => throw e
  | inr videoId => ret videoId
  end.

(** [POST /prepare-context] *)
Definition prepare_context (body : gmap string JValue) : M Response :=
  let videoUrl := field body "videoUrl" in
  let speakerName := field body "speakerName" in
  videoId <- youtubeService_extractVideoId videoUrl ;;
  match as_truthy videoId with
  | None =>
      ret {| status := 400; payload := ApiError "Invalid YouTube URL" NoDetails |}
  | Some videoId =>
      job <- await (QueueAdd "process-video"
               {| job_videoId := videoId;
                  job_videoUrl := videoUrl;
                  job_speakerName :=
                    if truthy speakerName then speakerName
                    else JStr ("Speaker for " ++ videoId) |}) ;;
      ret {| status := 202;
             payload :=
               JobAccepted "Video processing has started in the background."
                 (id job) |}
  end.

(** [GET /status/:jobId] *)
Definition job_status (jobId : string) : M Response :=
  job <- await (QueueGetJob jobId) ;;
  match job with
  | None => ret {| status := 404; payload := ApiError "Job not found." NoDetails |}
  | Some job =>
      state <- await (JobGetState job) ;;
      ret (json (JobStatus (id job) state (progress job) (returnvalue job)))
  end.

(** [POST /instant-context] *)
Definition instant_context (body : gmap string JValue) : M Response :=
  try_catch
    (let videoUrl := field body "videoUrl" in
     let pausedTime := field body "pausedTime" in
     let speakerName := field body "speakerName" in
     videoId <- youtubeService_extractVideoId videoUrl ;;
     match as_truthy videoId with
     | None =>
         ret {| status := 400;
                payload := ApiError "Invalid YouTube URL" NoDetails |}
     | Some videoId =>
         voiceId <- await (CacheGetVoiceId videoId) ;;
         audioPath <- await (DownloadAudioSegment videoUrl pausedTime) ;;
         segmentTranscript <- await (TranscribeAudio audioPath) ;;
         let contextWindow := String.concat " " (map text segmentTranscript) in
         voiceId <-
           match as_truthy voiceId with
           | Some voiceId => ret voiceId
           | None =>
               voiceSamplePath <- await (ExtractVoiceSample audioPath 30) ;;
               voiceId <- await (CloneVoice speakerName voiceSamplePath) ;;
               await (CacheSetVideoData videoId
                        {| cacheService.voiceId := Some voiceId;
                           cacheService.speakerName := None;
                           cacheService.voiceSamplePath := None |}) ;;
               await (Cleanup voiceSamplePath) ;;
               ret voiceId
           end ;;
         await (Cleanup audioPath) ;;
         ret (json (InstantContextResponse videoId voiceId contextWindow))
     end)
    (λ error,
       match unguarded_message error with
       | inl thrown => throw thrown
       | inr message =>
           ret {| status := 500;
                  payload :=
                    ApiError "Failed to get instant context"
                      (from_option Detail NoDetails message) |}
       end).

(** [POST /clone-voice] *)
Definition clone_voice (body : gmap string JValue) : M Response :=
  try_catch
    (match cloneVoiceSchema isURL body with
     | inl errors =>
         ret (sendError 400 "Invalid request data" (Issues errors))
     | inr (videoId, speakerName, sampleUrl) =>
         cachedData <- await (CacheGetVideoData videoId) ;;
         match as_truthy (cachedData ≫= cacheService.voiceId) with
         | Some voiceId =>
             ret (json (CloneVoiceResponse videoId voiceId
                          "Voice already cloned for this video (from cache)."))
         | None =>
             videoData <- read_memory (memoryService.getVideoData videoId) ;;
             match as_truthy (videoData ≫= memoryService.voiceSamplePath) with
             | None =>
                 ret (sendError 404
                        ("Local voice sample path not found for video "
                         ++ videoId ++ ". Please prepare context again.")
                        NoDetails)
             | Some localVoiceSamplePath =>
                 newVoiceId <-
                   await (CloneVoice (JStr speakerName) localVoiceSamplePath) ;;
                 let dataToCache :=
                   {| cacheService.voiceId := Some newVoiceId;
                      cacheService.speakerName := Some speakerName;
                      cacheService.voiceSamplePath :=
                        cachedData ≫= cacheService.voiceSamplePath |} in
                 await (CacheSetVideoData videoId dataToCache) ;;
                 write_memory (memoryService.setVoiceId videoId newVoiceId) ;;
                 write_memory
                   (memoryService.setVideoData videoId
                      {| memoryService.p_transcript := None;
                         memoryService.p_voiceId := Some newVoiceId;
                         memoryService.p_agentId := None;
                         memoryService.p_speakerName := Some speakerName;
                         memoryService.p_voiceSamplePath := None |}) ;;
                 ret (json (CloneVoiceResponse videoId newVoiceId
                              "Voice cloned successfully."))
             end
         end
     end)
    (λ error,
       ret (sendError 500 "Failed to clone voice"
              (Detail (error_message error)))).

(** [POST /get-context-window] *)
Definition get_context_window (body : gmap string JValue) : M Response :=
  try_catch
    (match getContextWindowSchema body with
     | inl errors =>
         ret (sendError 400 "Invalid request data" (Issues errors))
     | inr (videoId, pausedTime) =>
         cached <-
           read_memory
             (memoryService.getCachedContextWindow videoId pausedTime) ;;
         match as_truthy cached with
         | Some cached => ret (json (GetContextWindowResponse cached))
         | None =>
             transcript <- read_memory (memoryService.getTranscript videoId) ;;
             match transcript with
             | None =>
                 ret (sendError 404 "Video transcript not found" NoDetails)
             | Some transcript =>
                 let contextWindow :=
                   getContextWindow transcript pausedTime
                     MAX_CONTEXT_WINDOW_SECONDS in
                 write_memory
                   (memoryService.cacheContextWindow videoId pausedTime
                      contextWindow) ;;
                 ret (json (GetContextWindowResponse contextWindow))
             end
         end
     end)
    (λ error,
       ret (sendError 500 "Failed to get context window"
              (Detail (error_message error)))).

Definition quota_message : string :=
  "Maximum questions per video exceeded ("
  ++ pretty MAX_QUESTIONS_PER_VIDEO ++ ")".

(** [POST /build-conversation] *)
Definition build_conversation (body : gmap string JValue) : M Response :=
  try_catch
    (match buildConversationSchema body with
     | inl errors =>
         ret (sendError 400 "Invalid request data" (Issues errors))
     | inr (videoId, voiceId, speakerName, contextWindow, userQuestionText) =>
         questionCount <-
           read_memory (memoryService.getQuestionCount videoId) ;;
         if bool_decide (MAX_QUESTIONS_PER_VIDEO ≤ questionCount)%nat then
           ret (sendError 429 quota_message NoDetails)
         else
           write_memory (memoryService.incrementQuestionCount videoId) ;;
           let conversation :=
             buildConversationConfig voiceId speakerName contextWindow
               userQuestionText in
           ret (json (BuildConversationResponse conversation))
     end)
    (λ error,
       ret (sendError 500 "Failed to build conversation"
              (Detail (error_message error)))).

(** [getContextWindowForVideo]: the window around the middle of the
    video.  Reading [.start] of a missing element throws. *)
Definition getContextWindowForVideo (videoId : string) : M (option string) :=
  transcript <- read_memory (memoryService.getTranscript videoId) ;;
  match transcript with
  | None => ret None
  | Some segments =>
      if bool_decide (length segments = 0)%nat then ret (Some "")
      else
        match segments !! (length segments / 2)%nat with
        | None =>
            throw (JsError
              "Cannot read properties of undefined (reading 'start')")
        | Some middle =>
            let middleTimestamp := start middle in
            ret (Some (getContextWindow segments middleTimestamp
                         MAX_CONTEXT_WINDOW_SECONDS))
        end
  end.

(** The session record under a key of the unchecked body: the store is
    keyed by strings, so another value finds nothing. *)
Definition memoryService_getVideoData (videoId : JValue)
    : M (option memoryService.VideoData) :=
  match videoId with
  | JStr videoId => read_memory (memoryService.getVideoData videoId)
  | _ => ret None
  end.

(** [POST /create-agent] *)
Definition create_agent (body : gmap string JValue) : M Response :=
  try_catch
    (let videoId := field body "videoId" in
     let speakerName := field body "speakerName" in
     if negb (truthy videoId) || negb (truthy speakerName) then
       ret (sendError 400 "Missing required parameters" NoDetails)
     else
       videoData <- memoryService_getVideoData videoId ;;
       match videoId, videoData with
       | JStr videoId, Some videoData =>
           match memoryService.transcript videoData with
           | None | Some [] =>
               ret {| status := 400;
                      payload :=
                        ApiError
                          "Transcript is missing or empty. Please prepare context first."
                          NoDetails |}
           | Some _ =>
               existingAgentId <-
                 read_memory (memoryService.getAgentId videoId) ;;
               match as_truthy existingAgentId with
               | Some existingAgentId =>
                   ret (json (AgentResponse existingAgentId))
               | None =>
                   voiceId <- read_memory (memoryService.getVoiceId videoId) ;;
                   match as_truthy voiceId with
                   | None =>
                       ret (sendError 404
                              "Voice not found. Please clone voice first."
                              NoDetails)
                   | Some voiceId =>
                       contextWindow <-
                         await_async (getContextWindowForVideo videoId) ;;
                       match as_truthy contextWindow with
                       | None =>
                           ret (sendError 404
                                  "Context window not found. Please prepare context first."
                                  NoDetails)
                       | Some contextWindow =>
                           agentId <-
                             await (CreateAgent speakerName voiceId
                                      contextWindow) ;;
                           write_memory
                             (memoryService.setAgentId videoId agentId) ;;
                           ret (json (AgentResponse agentId))
                       end
                   end
               end
           end
       | _, _ =>
           ret {| status := 400;
                  payload :=
                    ApiError
                      "Video data not found. Please prepare context first."
                      NoDetails |}
       end)
    (λ error,
       ret (sendError 500 "Failed to create agent"
              (Detail (error_message error)))).

(** [POST /stream-conversation] *)
Definition stream_conversation (body : gmap string JValue) : M Response :=
  try_catch
    (match streamConversationSchema body with
     | inl errors =>
         ret (sendError 400 "Invalid request data" (Issues errors))
     | inr (videoId, text) =>
         questionCount <-
           read_memory (memoryService.getQuestionCount videoId) ;;
         if bool_decide (MAX_QUESTIONS_PER_VIDEO ≤ questionCount)%nat then
           ret (sendError 429 quota_message NoDetails)
         else
           write_memory (memoryService.incrementQuestionCount videoId) ;;
           agentId <- read_memory (memoryService.getAgentId videoId) ;;
           match as_truthy agentId with
           | None =>
               ret (sendError 404 "Agent not found. Please create agent first."
                      NoDetails)
           | Some agentId =>
               response <- await (StreamConversation agentId text) ;;
               ret (json (RelayResponse response))
           end
     end)
    (λ error,
       ret (sendError 500 "Failed to stream conversation"
              (Detail (error_message error)))).

(** [GET /streaming-url/:agentId] *)
Definition streaming_url (agentId : string) : M Response :=
  try_catch
    (if bool_decide (agentId = "") then
       ret (sendError 400 "Missing agent ID" NoDetails)
     else
       let wsUrl := getStreamingWebSocketUrl agentId in
       ret (json (StreamingUrlResponse wsUrl)))
    (λ error,
       ret (sendError 500 "Failed to get streaming URL"
              (Detail (error_message error)))).

(** [POST /speak] *)
Definition speak (body : gmap string JValue) : M Response :=
  try_catch
    (match speakSchema body with
     | inl errors =>
         ret (sendError 400 "Invalid request data" (Issues errors))
     | inr (voiceId, text) =>
         audioBuffer <- await (GenerateSpeech voiceId text) ;;
         ret (json (AudioResponse "audio/mpeg" (pretty (length audioBuffer))
                      audioBuffer))
     end)
    (λ error,
       ret (sendError 500 "Failed to generate speech"
              (Detail (error_message error)))).

(** ** The server *)

Inductive Request :=
| POST_prepare_context (body : gmap string JValue)
| GET_status (jobId : string)
| POST_instant_context (body : gmap string JValue)
| POST_clone_voice (body : gmap string JValue)
| POST_get_context_window (body : gmap string JValue)
| POST_build_conversation (body : gmap string JValue)
| POST_create_agent (body : gmap string JValue)
| POST_stream_conversation (body : gmap string JValue)
| GET_streaming_url (agentId : string)
| POST_speak (body : gmap string JValue).

Definition router (req : Request) : M Response :=
  match req with
  | POST_prepare_context body => prepare_context body
  | GET_status jobId => job_status jobId
  | POST_instant_context body => instant_context body
  | POST_clone_voice body => clone_voice body
  | POST_get_context_window body => get_context_window body
  | POST_build_conversation body => build_conversation body
  | POST_create_agent body => create_agent body
  | POST_stream_conversation body => stream_conversation body
  | GET_streaming_url agentId => streaming_url agentId
  | POST_speak body => speak body
  end.

(** A request in flight: it awaits a call that has not settled yet; or
    the call has settled and the rest of the handler waits for its turn;
    or the handler has answered; or it has thrown past its last
    [catch] (an unhandled rejection: no answer is sent). *)
Inductive Thread :=
| Pending : ∀ X : Type, Call X → (Reply X → M Response) → Thread
| Settled (rest : M Response)
| Finished (response : Response)
| Crashed (error : Exn).
Global Arguments Pending {X} c k.

Definition thread_of (r : Res Response) : Thread :=
  match r with
  | Ret response => Finished response
  | Throw error => Crashed error
  | Wait c k => Pending c k
  end.

Record Server := {
  world : World;
  threads : list Thread;
  clock : nat
}.

(** The environment: how each awaited call settles, which may differ
    from one moment to the next. *)
Definition Oracle : Type := ∀ X : Type, Call X → nat → Reply X.

(** What happens next: a request arrives and its handler runs up to its
    first [await]; the call a request awaits settles; or a request whose
    call has settled runs up to its next [await]. *)
Inductive Event :=
| Arrive (req : Request)
| Settle (tid : nat)
| Resume (tid : nat).

Definition step (oracle : Oracle) (s : Server) (ev : Event) : Server :=
  match ev with
  | Arrive req =>
      let (w, r) := router req (world s) in
      {| world := w;
         threads := (threads s ++ [thread_of r])%list;
         clock := S (clock s) |}
  | Settle tid =>
      match threads s !! tid with
      | Some (Pending c k) =>
          let (w, reply) := perform c (oracle _ c (clock s)) (world s) in
          {| world := w;
             threads := <[tid := Settled (k reply)]> (threads s);
             clock := S (clock s) |}
      | _ => s
      end
  | Resume tid =>
      match threads s !! tid with
      | Some (Settled rest) =>
          let (w, r) := rest (world s) in
          {| world := w;
             threads := <[tid := thread_of r]> (threads s);
             clock := S (clock s) |}
      | _ => s
      end
  end.

Definition exec (oracle : Oracle) (s : Server) (schedule : list Event)
    : Server :=
  foldl (step oracle) s schedule.

Definition idle (w : World) : Server :=
  {| world := w; threads := []; clock := 0 |}.

(** One request served alone: every call it awaits settles, and the
    handler resumes, before anything else happens. *)
Fixpoint run_res (oracle : Oracle) (t : nat) (r : Res Response)
    (w : World) : World * (Exn + Response) :=
  match r with
  | Ret response => (w, inr response)
  | Throw error => (w, inl error)
  | Wait c k =>
      let (w1, reply) := perform c (oracle _ c t) w in
      let (w2, r') := k reply w1 in
      run_res oracle (S t) r' w2
  end.

Definition run (oracle : Oracle) (req : Request) (w : World)
    : World * (Exn + Response) :=
  let (w', r) := router req w in run_res oracle 0 r w'.

End Routes.

(** ** The context window *)

(** Modelled from the spec: the transcription service is not among the
    sources.  Section 4.4, stage 6: the segments whose time ranges fall
    within [[pausedTime - maxWindowSeconds, pausedTime]], their texts
    concatenated in order; when [pausedTime] precedes all segments, the
    earliest segments up to the window bound; the empty string on an empty
    transcript. *)
Definition buildContextWindow (transcript : list TranscriptSegment)
    (pausedTime maxWindowSeconds : Qc) : string :=
  match transcript with
  | [] => ""
  | earliest :: _ =>
      let within (lo hi : Qc) (s : TranscriptSegment) : bool :=
        bool_decide (lo ≤ start s)%Qc && bool_decide (end_ s ≤ hi)%Qc in
      let window :=
        if forallb (λ s, bool_decide (pausedTime < start s)%Qc) transcript
        then (start earliest, (start earliest + maxWindowSeconds)%Qc)
        else ((pausedTime - maxWindowSeconds)%Qc, pausedTime) in
      String.concat ""
        (map text (List.filter (within window.1 window.2) transcript))
  end.

(** ** Observations on the log of calls *)

Definition is_CloneVoice (i : Invocation) : bool :=
  match i with
  | Invoke c => match c with CloneVoice _ _ => true | _ => false end
  end.

Definition is_CreateAgent (i : Invocation) : bool :=
  match i with
  | Invoke c => match c with CreateAgent _ _ _ => true | _ => false end
  end.

(** The collaborator call counters. *)
Definition clone_calls (w : World) : nat :=
  length (List.filter is_CloneVoice (invocations w)).

Definition agent_calls (w : World) : nat :=
  length (List.filter is_CreateAgent (invocations w)).

(** An environment in which no call ever fails. *)
Definition all_resolve (oracle : Oracle) : Prop :=
  ∀ (X : Type) (c : Call X) (t : nat), ∃ x, oracle X c t = Resolved x.

(** ** What a computation may do from here on *)

(** [res_safe R C A r]: every call [r] will issue satisfies [C], and
    every stretch of code it will run relates the world before to the
    world after by [R], whatever the world has become when it resumes and
    whatever the calls it awaits reply, as long as the replies satisfy
    [A]. *)
Fixpoint res_safe {B} (R : World → World → Prop) (C : Invocation → Prop)
    (A : ∀ X, Call X → Reply X → Prop) (r : Res B) : Prop :=
  match r with
  | Ret _ | Throw _ => True
  | Wait c k =>
      C (Invoke c) ∧
      ∀ o, A _ c o → ∀ w, let (w', r') := k o w in R w w' ∧ res_safe R C A r'
  end.

Definition m_safe {B} (R : World → World → Prop) (C : Invocation → Prop)
    (A : ∀ X, Call X → Reply X → Prop) (m : M B) : Prop :=
  ∀ w, let (w', r) := m w in R w w' ∧ res_safe R C A r.

Definition thread_safe (R : World → World → Prop) (C : Invocation → Prop)
    (A : ∀ X, Call X → Reply X → Prop) (t : Thread) : Prop :=
  match t with
  | Pending c k => C (Invoke c) ∧ ∀ o, A _ c o → m_safe R C A (k o)
  | Settled rest => m_safe R C A rest
  | Finished _ | Crashed _ => True
  end.

(** ** A sample configuration and environment *)

(** A whole number of seconds. *)
Definition seconds (n : Z) : Qc := Q2Qc (QArith_base.inject_Z n).

(** A video reference of the short form, with or without its scheme, and
    nothing else; a value that is no string has no [match] method. *)
Definition sample_extractVideoId (videoUrl : JValue) : Exn + option string :=
  match videoUrl with
  | JStr s =>
      if String.prefix "https://youtu.be/" s
      then inr (Some (String.substring 17 11 s))
      else if String.prefix "youtu.be/" s
      then inr (Some (String.substring 9 11 s))
      else inr None
  | _ => inl (JsError "url.match is not a function")
  end.

Definition sample_env : Env :=
  {| MAX_QUESTIONS_PER_VIDEO := 2;
     MAX_CONTEXT_WINDOW_SECONDS := seconds 30;
     isURL := String.prefix "https://";
     extractVideoId := sample_extractVideoId;
     getContextWindow := buildContextWindow;
     buildConversationConfig := λ _ _ _ _, JObject;
     getStreamingWebSocketUrl := λ agentId, "wss://stream/" ++ agentId |}.

Definition sample_transcript : list TranscriptSegment :=
  [ {| start := seconds 0; end_ := seconds 4; text := "Hello. " |};
    {| start := seconds 4; end_ := seconds 9; text := "Welcome back. " |};
    {| start := seconds 9; end_ := seconds 15; text := "Today: proofs." |} ].

(** Every call succeeds. *)
Definition sample_oracle : Oracle :=
  λ X c _,
    match c in Call X return Reply X with
    | QueueAdd name data => Resolved (queue_add name data [])
    | QueueGetJob _ => Resolved None
    | JobGetState job => Resolved (state job)
    | CacheGetVoiceId _ => Resolved None
    | CacheGetVideoData _ => Resolved None
    | CacheSetVideoData _ _ => Resolved ()
    | DownloadAudioSegment _ _ => Resolved "/tmp/segment.mp3"
    | TranscribeAudio _ => Resolved sample_transcript
    | ExtractVoiceSample _ _ => Resolved "/tmp/sample.mp3"
    | CloneVoice _ _ => Resolved "voice-1"
    | Cleanup _ => Resolved ()
    | CreateAgent _ _ _ => Resolved "agent-1"
    | StreamConversation _ _ => Resolved (JStr "answer")
    | GenerateSpeech _ _ => Resolved []
    | AsyncLocal => Resolved ()
    end.

(** The same environment, except that the call settling at time [t0]
    is rejected. *)
Definition failing_at (t0 : nat) (e : Exn) (oracle : Oracle) : Oracle :=
  λ X c t, if bool_decide (t = t0) then Rejected e else oracle X c t.

Definition sample_body (fields : list (string * JValue))
    : gmap string JValue :=
  list_to_map fields.

Definition sample_instant_body : gmap string JValue :=
  sample_body [("videoUrl", JStr "https://youtu.be/dQw4w9WgXcQ");
               ("pausedTime", JNum (seconds 12));
               ("speakerName", JStr "Rick")].

Definition sample_agent_body : gmap string JValue :=
  sample_body [("videoId", JStr "dQw4w9WgXcQ"); ("speakerName", JStr "Rick")].

Definition sample_window_body : gmap string JValue :=
  sample_body [("videoId", JStr "dQw4w9WgXcQ");
               ("pausedTime", JNum (seconds 12))].

Definition sample_clone_body : gmap string JValue :=
  sample_body [("videoId", JStr "dQw4w9WgXcQ"); ("speakerName", JStr "Rick");
               ("sampleUrl", JStr "https://cdn/sample.mp3")].

Definition sample_question_body : gmap string JValue :=
  sample_body [("videoId", JStr "dQw4w9WgXcQ");
               ("text", JStr "What is this about?")].

Definition sample_conversation_body : gmap string JValue :=
  sample_body [("videoId", JStr "dQw4w9WgXcQ"); ("voiceId", JStr "voice-0");
               ("speakerName", JStr "Rick");
               ("contextWindow", JStr "Hello. Welcome back.");
               ("userQuestionText", JStr "What is this about?")].

(** A server whose cache already holds a cloned voice for the video. *)
Definition sample_cached_world : World :=
  with_cache
    (cacheService.setVideoData "dQw4w9WgXcQ"
       {| cacheService.voiceId := Some "voice-0";
          cacheService.speakerName := Some "Rick";
          cacheService.voiceSamplePath := Some "/tmp/full-sample.mp3" |})
    boot.

Definition sample_speak_body : gmap string JValue :=
  sample_body [("voiceId", JStr "voice-0"); ("text", JStr "Hello there.")].

(** A server whose cache knows the speaker and the voice sample of the
    video, and no voice yet. *)
Definition sample_uncloned_world : World :=
  with_cache
    (cacheService.setVideoData "dQw4w9WgXcQ"
       {| cacheService.voiceId := None;
          cacheService.speakerName := Some "Rick";
          cacheService.voiceSamplePath := Some "/tmp/full-sample.mp3" |})
    boot.

(** A server whose session store holds the transcript, the voice sample
    and the voice of the video, and no agent yet. *)
Definition sample_prepared_world : World :=
  with_memory
    (memoryService.setVideoData "dQw4w9WgXcQ"
       {| memoryService.p_transcript := Some sample_transcript;
          memoryService.p_voiceId := Some "voice-0";
          memoryService.p_agentId := None;
          memoryService.p_speakerName := Some "Rick";
          memoryService.p_voiceSamplePath := Some "/tmp/full-sample.mp3" |})
    boot.

(** The same server once an agent has been created for the video. *)
Definition sample_agent_world : World :=
  with_memory (memoryService.setAgentId "dQw4w9WgXcQ" "agent-0")
    sample_prepared_world.

(** ** Well-formed session stores *)

(** A record without a transcript has no context window cached: the
    routes cache a window only after they have found the transcript. *)
Definition memory_wf (m : gmap string memoryService.VideoData) : Prop :=
  ∀ videoId r, m !! videoId = Some r →
    memoryService.transcript r = None →
    memoryService.contextWindowCache r = ∅.

(** ** Conversational turns *)

(** The video a request asks a question about, when the request is a
    conversational turn whose body its schema accepts. *)
Definition turn_video (req : Request) : option string :=
  match req with
  | POST_build_conversation body =>
      match buildConversationSchema body with
      | inr (videoId, _, _, _, _) => Some videoId
      | inl _ => None
      end
  | POST_stream_conversation body =>
      match streamConversationSchema body with
      | inr (videoId, _) => Some videoId
      | inl _ => None
      end
  | _ => None
  end.

Definition is_turn (videoId : string) (ev : Event) : bool :=
  match ev with
  | Arrive req => bool_decide (turn_video req = Some videoId)
  | _ => false
  end.

(** How many conversational turns for the video a schedule lets arrive. *)
Definition turns (videoId : string) (schedule : list Event) : nat :=
  length (List.filter (is_turn videoId) schedule).

(** What becomes of a conversational turn for [videoId] that arrives in
    the world [w] and passes the quota check, as the thread [t] it leaves:
    [POST /build-conversation] has answered 200 with the conversation;
    [POST /stream-conversation] has answered 404 when the video has no
    agent, and else awaits the agent with the text as sent, to answer 200
    with its reply or 500 with its error. *)
Definition turn_passed {env : Env} (videoId : string) (req : Request)
    (w : World) (t : Thread) : Prop :=
  match req with
  | POST_build_conversation body =>
      ∃ voiceId speakerName contextWindow userQuestionText,
        buildConversationSchema body
        = inr (videoId, voiceId, speakerName, contextWindow,
               userQuestionText)
        ∧ t = Finished
                (json (BuildConversationResponse
                         (buildConversationConfig voiceId speakerName
                            contextWindow userQuestionText)))
  | POST_stream_conversation body =>
      ∃ text,
        streamConversationSchema body = inr (videoId, text)
        ∧ match as_truthy (memoryService.getAgentId videoId (memory w)) with
          | None =>
              t = Finished
                    (sendError 404
                       "Agent not found. Please create agent first."
                       NoDetails)
          | Some agentId =>
              ∃ k, t = Pending (StreamConversation agentId text) k
                   ∧ ∀ o w',
                       k o w'
                       = (w',
                          Ret match o with
                              | Resolved response =>
                                  json (RelayResponse response)
                              | Rejected e =>
                                  sendError 500
                                    "Failed to stream conversation"
                                    (Detail (error_message e))
                              end)
          end
  | _ => False
  end.

(** The question counter of the video is the same in both worlds. *)
Definition same_count (videoId : string) (w w' : World) : Prop :=
  memoryService.getQuestionCount videoId (memory w')
  = memoryService.getQuestionCount videoId (memory w).

Definition any_call (_ : Invocation) : Prop := True.

Definition any_reply (X : Type) (_ : Call X) (_ : Reply X) : Prop := True.

(** ** Fields of a cache entry *)

Inductive CacheField :=
| Field_voiceId
| Field_speakerName
| Field_voiceSamplePath.

(** What an entry, or the data of a write, holds for a field. *)
Definition supplied (f : CacheField) (e : cacheService.CacheEntry)
    : option string :=
  match f with
  | Field_voiceId => cacheService.voiceId e
  | Field_speakerName => cacheService.speakerName e
  | Field_voiceSamplePath => cacheService.voiceSamplePath e
  end.

(** What the cache holds for a field of a video. *)
Definition cached (f : CacheField) (videoId : string) (w : World)
    : option string :=
  cache w !! videoId ≫= supplied f.

Definition same_cache (w w' : World) : Prop := cache w' = cache w.

Definition anything (w w' : World) : Prop := True.

(** A cache write that supplies the [voiceId] at most. *)
Definition voiceId_only (i : Invocation) : Prop :=
  match i with
  | Invoke c =>
      match c with
      | CacheSetVideoData _ data =>
          cacheService.speakerName data = None
          ∧ cacheService.voiceSamplePath data = None
      | _ => True
      end
  end.

(** A cache write whose sample path, if it carries one, is the one [P]
    has on record for the video. *)
Definition keeps_sample_path (P : string → option string)
    (i : Invocation) : Prop :=
  match i with
  | Invoke c =>
      match c with
      | CacheSetVideoData videoId data =>
          cacheService.voiceSamplePath data = None
          ∨ cacheService.voiceSamplePath data = P videoId
      | _ => True
      end
  end.

(** A cache read that finds the sample path [P] has on record. *)
Definition reads_sample_path (P : string → option string) (X : Type)
    (c : Call X) : Reply X → Prop :=
  match c in Call X return Reply X → Prop with
  | CacheGetVideoData videoId => λ o,
      match o with
      | Resolved entry => entry ≫= cacheService.voiceSamplePath = P videoId
      | Rejected _ => True
      end
  | _ => λ _, True
  end.

Definition sample_paths_are (P : string → option string) (w : World) : Prop :=
  ∀ videoId, cached Field_voiceSamplePath videoId w = P videoId.

(** ** Environments and answers *)

(** The call that settles at time [t] is not rejected. *)
Definition resolves (oracle : Oracle) (t : nat) : Prop :=
  ∀ (X : Type) (c : Call X), ∃ x, oracle X c t = Resolved x.

(** A computation that ends with an answer, never with an exception,
    whatever the calls it awaits reply. *)
Fixpoint res_answers (r : Res Response) : Prop :=
  match r with
  | Ret _ => True
  | Throw _ => False
  | Wait c k => ∀ o w, let (_, r') := k o w in res_answers r'
  end.

(** A well-formed session store stays well formed. *)
Definition keeps_wf (w w' : World) : Prop :=
  memory_wf (memory w) → memory_wf (memory w').

(** The jobs of the queue carry the ids the queue issued. *)
Definition queue_wf (q : list Job) : Prop :=
  ∀ i job, q !! i = Some job → id job = pretty (S i).

(** The same, as long as the replies satisfy [A]. *)
Fixpoint res_answers_when (A : ∀ X, Call X → Reply X → Prop)
    (r : Res Response) : Prop :=
  match r with
  | Ret _ => True
  | Throw _ => False
  | Wait c k =>
      ∀ o w, A _ c o → let (_, r') := k o w in res_answers_when A r'
  end.

(** A reply that is no rejection with [undefined] or [null]. *)
Definition not_nullish (X : Type) (c : Call X) (o : Reply X) : Prop :=
  o ≠ Rejected JsNullish.

(** The routes whose whole body is inside a [try] whose [catch] answers
    whatever was thrown: it reads the message behind
    [error instanceof Error].  [POST /instant-context] has a [try], but
    its [catch] reads [error.message] unguarded; the two routes of the
    job queue have no [try]. *)
Definition guarded (req : Request) : bool :=
  match req with
  | POST_prepare_context _ | GET_status _ | POST_instant_context _ => false
  | _ => true
  end.

(** The routes that await nothing. *)
Definition immediate (req : Request) : bool :=
  match req with
  | POST_get_context_window _ | POST_build_conversation _
  | GET_streaming_url _ => true
  | _ => false
  end.

(** The session store holds the same transcripts in both worlds. *)
Definition same_transcripts (w w' : World) : Prop :=
  ∀ videoId,
    memoryService.getTranscript videoId (memory w')
    = memoryService.getTranscript videoId (memory w).

(** What no route does to the session store: change a transcript, or
    leave a window cached for a video that has no transcript. *)
Definition steady (w w' : World) : Prop :=
  same_transcripts w w' ∧ keeps_wf w w'.

(** The session store holds the same agent and the same transcript for
    the video in both worlds. *)
Definition agent_kept (videoId : string) (w w' : World) : Prop :=
  memoryService.getAgentId videoId (memory w')
  = memoryService.getAgentId videoId (memory w)
  ∧ memoryService.getTranscript videoId (memory w')
    = memoryService.getTranscript videoId (memory w).

(** An environment in which the agent-creation collaborator numbers its
    agents by the time at which the call settles; every other call
    succeeds as in [sample_oracle]. *)
Definition numbering_oracle : Oracle :=
  λ X c t,
    match c in Call X return Reply X with
    | CreateAgent _ _ _ => Resolved ("agent-" ++ pretty t)
    | c => sample_oracle _ c t
    end.

(** ** The worker *)

(** Modelled from the spec: the worker is not among the sources.
    Section 4.5: a job that has run to its end is [completed], with
    progress 100 and its result; the other jobs are as they were. *)
Definition complete_job (jobId : string) (result : JValue) (q : list Job)
    : list Job :=
  map (λ job,
         if bool_decide (id job = jobId) then
           {| id := id job; name := name job; data := data job;
              state := completed; progress := 100; returnvalue := result |}
         else job) q.

(** Modelled from the spec: the worker that runs the prepare-context
    pipeline is not among the sources.  Sections 2 and 4.5: the worker
    picks up a job of the queue and runs the full derivation for the
    video the job names; when all stages have succeeded, the results --
    the transcript the transcription returned and the voice of the video
    -- populate the session store and the cache, and the job is
    completed.  A job the queue does not hold, or one that is completed
    or failed already, is not run. *)
Definition worker_completes (jobId : string)
    (transcript : list TranscriptSegment) (voiceId : string) (w : World)
    : World :=
  match queue_getJob jobId (queue w) with
  | Some job =>
      match state job with
      | queued | active =>
          let videoId := job_videoId (data job) in
          with_queue (complete_job jobId JObject)
            (with_cache
               (cacheService.setVideoData videoId
                  {| cacheService.voiceId := Some voiceId;
                     cacheService.speakerName := None;
                     cacheService.voiceSamplePath := None |})
               (with_memory
                  (memoryService.setVoiceId videoId voiceId
                   ∘ memoryService.setTranscript videoId transcript) w))
      | completed | failed => w
      end
  | None => w
  end.

(** * Properties *)

(** ** The resumption monad *)

(** Induction on a computation: a waiting computation may assume the
    property of whatever it becomes once resumed. *)
Lemma Res_induction {A} (P : Res A → Prop) :
  (∀ a, P (Ret a)) →
  (∀ e, P (Throw e)) →
  (∀ X (c : Call X) k, (∀ o w, P (k o w).2) → P (Wait c k)) →
  ∀ r, P r.
Proof.
  intros Hret Hthrow Hwait.
  fix IH 1. intros [a|e|X c k].
  - apply Hret.
  - apply Hthrow.
  - apply Hwait. intros o w. destruct (k o w) as [w' r'] eqn:E.
    simpl. apply IH.
Qed.

Section Safety.

Variable R : World → World → Prop.
Variable C : Invocation → Prop.
Variable A : ∀ X, Call X → Reply X → Prop.
Hypothesis R_refl : ∀ w, R w w.
Hypothesis R_trans : ∀ w1 w2 w3, R w1 w2 → R w2 w3 → R w1 w3.

Lemma res_safe_bind {B B'} (r : Res B) (f : B → M B') :
  res_safe R C A r → (∀ a, m_safe R C A (f a)) →
  ∀ w, R w (bind_res r f w).1 ∧ res_safe R C A (bind_res r f w).2.
Proof.
  intros Hr Hf. induction r as [a|e|X c k IH] using Res_induction; intros w.
  - simpl. specialize (Hf a w). destruct (f a w). exact Hf.
  - simpl. auto.
  - simpl. split; [apply R_refl|]. destruct Hr as [Hc Hk].
    split; [exact Hc|]. intros o Ho w1. specialize (Hk o Ho w1).
    specialize (IH o w1). destruct (k o w1) as [w2 r2]. simpl in IH.
    destruct Hk as [H12 Hr2]. specialize (IH Hr2 w2).
    destruct (bind_res r2 f w2) as [w3 r3]. simpl in IH.
    destruct IH as [H23 Hr3]. split; [eapply R_trans; eauto | exact Hr3].
Qed.

Lemma m_safe_bind {B B'} (m : M B) (f : B → M B') :
  m_safe R C A m → (∀ a, m_safe R C A (f a)) → m_safe R C A (bind m f).
Proof.
  intros Hm Hf w. unfold bind. specialize (Hm w).
  destruct (m w) as [w1 r1]. destruct Hm as [H01 Hr1].
  pose proof (res_safe_bind r1 f Hr1 Hf w1) as H.
  destruct (bind_res r1 f w1) as [w2 r2]. simpl in H.
  destruct H as [H12 Hr2]. split; [eapply R_trans; eauto | exact Hr2].
Qed.

Lemma res_safe_catch {B} (r : Res B) (h : Exn → M B) :
  res_safe R C A r → (∀ e, m_safe R C A (h e)) →
  ∀ w, R w (catch_res r h w).1 ∧ res_safe R C A (catch_res r h w).2.
Proof.
  intros Hr Hh. induction r as [a|e|X c k IH] using Res_induction; intros w.
  - simpl. auto.
  - simpl. specialize (Hh e w). destruct (h e w). exact Hh.
  - simpl. split; [apply R_refl|]. destruct Hr as [Hc Hk].
    split; [exact Hc|]. intros o Ho w1. specialize (Hk o Ho w1).
    specialize (IH o w1). destruct (k o w1) as [w2 r2]. simpl in IH.
    destruct Hk as [H12 Hr2]. specialize (IH Hr2 w2).
    destruct (catch_res r2 h w2) as [w3 r3]. simpl in IH.
    destruct IH as [H23 Hr3]. split; [eapply R_trans; eauto | exact Hr3].
Qed.

Lemma m_safe_try_catch {B} (body : M B) (h : Exn → M B) :
  m_safe R C A body → (∀ e, m_safe R C A (h e)) →
  m_safe R C A (try_catch body h).
Proof.
  intros Hm Hh w. unfold try_catch. specialize (Hm w).
  destruct (body w) as [w1 r1]. destruct Hm as [H01 Hr1].
  pose proof (res_safe_catch r1 h Hr1 Hh w1) as H.
  destruct (catch_res r1 h w1) as [w2 r2]. simpl in H.
  destruct H as [H12 Hr2]. split; [eapply R_trans; eauto | exact Hr2].
Qed.

Lemma m_safe_ret {B} (a : B) : m_safe R C A (ret a).
Proof. intros w. simpl. auto. Qed.

Lemma m_safe_throw {B} (e : Exn) : m_safe R C A (@throw B e).
Proof. intros w. simpl. auto. Qed.

Lemma m_safe_read_memory {B}
    (f : gmap string memoryService.VideoData → B) :
  m_safe R C A (read_memory f).
Proof. intros w. simpl. auto. Qed.

Lemma m_safe_write_memory f :
  (∀ w, R w (with_memory f w)) → m_safe R C A (write_memory f).
Proof. intros H w. simpl. auto. Qed.

Lemma m_safe_await {X} (c : Call X) :
  C (Invoke c) → (∀ w, R w (logged c w)) → m_safe R C A (await c).
Proof.
  intros Hc Hlog w. simpl. split; [apply Hlog|]. split; [exact Hc|].
  intros [x|e] _ w'; simpl; auto.
Qed.

(** The code after an [await] may count on what [A] says of the reply. *)
Lemma m_safe_bind_await {X B} (c : Call X) (f : X → M B) :
  C (Invoke c) → (∀ w, R w (logged c w)) →
  (∀ x, A X c (Resolved x) → m_safe R C A (f x)) →
  m_safe R C A (bind (await c) f).
Proof.
  intros Hc Hlog Hf w. unfold bind. simpl. split; [apply Hlog|].
  split; [exact Hc|]. intros [x|e] Ho w'; simpl; [|auto].
  specialize (Hf x Ho w'). destruct (f x w'). exact Hf.
Qed.

Lemma m_safe_tick : C (Invoke AsyncLocal) → m_safe R C A tick.
Proof.
  intros Hc w. simpl. split; [apply R_refl|]. split; [exact Hc|].
  intros o _ w'. simpl. auto.
Qed.

Lemma m_safe_await_async {B} (body : M B) :
  C (Invoke AsyncLocal) → m_safe R C A body →
  m_safe R C A (await_async body).
Proof.
  intros Hc Hb. unfold await_async. apply m_safe_try_catch.
  - apply m_safe_bind; [exact Hb|]. intros a.
    apply m_safe_bind; [apply m_safe_tick, Hc|]. intros _. apply m_safe_ret.
  - intros e. apply m_safe_bind; [apply m_safe_tick, Hc|]. intros _.
    apply m_safe_throw.
Qed.

End Safety.

(** One step of a proof that a handler is safe: by the shape of the
    code, with [side] for the conditions on the relation and the calls. *)
Ltac safe_step side :=
  match goal with
  | |- m_safe _ _ _ (ret _) => apply m_safe_ret; side
  | |- m_safe _ _ _ (throw _) => apply m_safe_throw; side
  | |- m_safe _ _ _ (read_memory _) => apply m_safe_read_memory; side
  | |- m_safe _ _ _ (write_memory _) => apply m_safe_write_memory; side
  | |- m_safe _ _ _ tick => apply m_safe_tick; side
  | |- m_safe _ _ _ (await _) => apply m_safe_await; side
  | |- m_safe _ _ _ (await_async _) =>
      apply m_safe_await_async; [side..|]
  | |- m_safe _ _ _ (bind (await _) _) =>
      apply m_safe_bind_await; [side..|intros ? ?]
  | |- m_safe _ _ _ (bind _ _) => apply m_safe_bind; [side..| |intros ?]
  | |- m_safe _ _ _ (try_catch _ _) =>
      apply m_safe_try_catch; [side..| |intros ?]
  | |- m_safe _ _ _ (match ?x with _ => _ end) => destruct x eqn:?
  | |- m_safe _ _ _ (if ?x then _ else _) => destruct x eqn:?
  end.

Ltac safe_go side := repeat safe_step side.

(** ** Requests in flight *)

Lemma perform_memory {X} (c : Call X) (o : Reply X) (w : World) :
  memory (perform c o w).1 = memory w.
Proof. destruct c, o; done. Qed.

Lemma perform_invocations {X} (c : Call X) (o : Reply X) (w : World) :
  invocations (perform c o w).1 = invocations w.
Proof. destruct c, o; done. Qed.

Section ServerSafety.

Context {env : Env}.
Variable R : World → World → Prop.
Variable C : Invocation → Prop.
Variable A : ∀ X, Call X → Reply X → Prop.
Variable I : World → Prop.

(** The setting: what is left of every handler after its first stretch
    is safe; [R] keeps the invariant [I] of the world; and a call that
    satisfies [C], completed in a world that satisfies [I], keeps [I] and
    replies as [A] says. *)
Hypothesis router_safe : ∀ req w, res_safe R C A (router req w).2.
Hypothesis router_I : ∀ req w, I w → I (router req w).1.
Hypothesis R_I : ∀ w w', R w w' → I w → I w'.
Hypothesis perform_I :
  ∀ X (c : Call X) o w, C (Invoke c) → I w →
    I (perform c o w).1 ∧ A X c (perform c o w).2.

Lemma thread_of_safe (r : Res Response) :
  res_safe R C A r → thread_safe R C A (thread_of r).
Proof.
  destruct r; simpl; [done|done|]. intros [Hc Hk]. split; [done|].
  intros o Ho w0. by apply Hk.
Qed.

(** The requests in flight stay safe and the world keeps its invariant,
    whatever happens next. *)
Lemma step_threads_safe (oracle : Oracle) (s : Server) (ev : Event) :
  I (world s) ∧ Forall (thread_safe R C A) (threads s) →
  I (world (step oracle s ev))
  ∧ Forall (thread_safe R C A) (threads (step oracle s ev)).
Proof.
  intros [Hi Hs]. destruct ev as [req|tid|tid]; simpl.
  - pose proof (router_safe req (world s)) as Hr.
    pose proof (router_I req (world s) Hi) as Hi'.
    destruct (router req (world s)) as [w' r].
    simpl. split; [done|]. apply Forall_app. split; [done|].
    apply Forall_singleton. by apply thread_of_safe.
  - destruct (threads s !! tid) as [t|] eqn:E; [|done].
    destruct t as [X c k|rest|response|error]; try done.
    eapply Forall_lookup_1 in E; [|done]. simpl in E. destruct E as [Hc Hk].
    pose proof (perform_I X c (oracle X c (clock s)) (world s) Hc Hi) as Hp.
    destruct (perform c (oracle X c (clock s)) (world s)) as [w' reply].
    simpl in *. destruct Hp as [Hi' Ha]. split; [done|].
    apply Forall_insert; [done|]. simpl. by apply Hk.
  - destruct (threads s !! tid) as [t|] eqn:E; [|done].
    destruct t as [X c k|rest|response|error]; try done.
    eapply Forall_lookup_1 in E; [|done]. simpl in E. specialize (E (world s)).
    destruct (rest (world s)) as [w' r]. simpl. destruct E as [Hr Hsafe].
    split; [by eapply R_I|].
    apply Forall_insert; [done|]. by apply thread_of_safe.
Qed.

(** A step that lets no request arrive relates the worlds by [R], when
    the requests in flight are safe and completing a call respects [R]. *)
Lemma step_quiet (oracle : Oracle) (s : Server) (ev : Event) :
  (∀ w, R w w) →
  (∀ X (c : Call X) o w, C (Invoke c) → R w (perform c o w).1) →
  Forall (thread_safe R C A) (threads s) →
  (∀ req, ev ≠ Arrive req) →
  R (world s) (world (step oracle s ev)).
Proof.
  intros Hrefl Hperform Hs Hev. destruct ev as [req|tid|tid]; simpl.
  - by destruct (Hev req).
  - destruct (threads s !! tid) as [t|] eqn:E; [|done].
    destruct t as [X c k|rest|response|error]; try done.
    eapply Forall_lookup_1 in E; [|done]. simpl in E. destruct E as [Hc _].
    specialize (Hperform X c (oracle X c (clock s)) (world s) Hc).
    destruct (perform c (oracle X c (clock s)) (world s)) as [w' reply]. done.
  - destruct (threads s !! tid) as [t|] eqn:E; [|done].
    destruct t as [X c k|rest|response|error]; try done.
    eapply Forall_lookup_1 in E; [|done]. simpl in E. specialize (E (world s)).
    destruct (rest (world s)) as [w' r]. simpl. tauto.
Qed.

Lemma exec_snoc (oracle : Oracle) (s : Server) schedule ev :
  exec oracle s (schedule ++ [ev]) = step oracle (exec oracle s schedule) ev.
Proof. unfold exec. by rewrite foldl_snoc. Qed.

Lemma exec_threads_safe (oracle : Oracle) (s : Server) schedule :
  I (world s) ∧ Forall (thread_safe R C A) (threads s) →
  I (world (exec oracle s schedule))
  ∧ Forall (thread_safe R C A) (threads (exec oracle s schedule)).
Proof.
  intros Hs. induction schedule as [|ev schedule IH] using rev_ind.
  - done.
  - rewrite exec_snoc. by apply step_threads_safe.
Qed.

End ServerSafety.

(** ** The session store *)

Ltac mem_unfold :=
  unfold memoryService.getAgentId, memoryService.getVoiceId,
    memoryService.getTranscript, memoryService.getVideoData,
    memoryService.getQuestionCount, memoryService.getCachedContextWindow,
    memoryService.incrementQuestionCount, memoryService.cacheContextWindow,
    memoryService.setAgentId, memoryService.setVoiceId,
    memoryService.setTranscript, memoryService.setVideoData,
    memoryService.getOrCreate, memoryService.update in *;
  cbv zeta in *.

Ltac map_lookups :=
  repeat first
    [ rewrite lookup_insert_eq
    | rewrite lookup_insert_ne by done
    | match goal with
      | |- context [<[?i := _]> _ !! ?j] =>
          destruct (decide (i = j)); [subst|]
      end ].

Ltac mem_solve :=
  intros; mem_unfold; map_lookups;
  repeat match goal with
  | |- context [?m !! ?i] => destruct (m !! i) eqn:?
  end;
  simpl in *; map_lookups; try done; try congruence.

Section MemoryFacts.

Import memoryService.

Implicit Types (m : gmap string VideoData) (videoId other : string).

Lemma count_incrementQuestionCount videoId m :
  getQuestionCount videoId (incrementQuestionCount videoId m)
  = S (getQuestionCount videoId m).
Proof. mem_solve. Qed.

Lemma count_incrementQuestionCount_ne videoId other m :
  videoId ≠ other →
  getQuestionCount other (incrementQuestionCount videoId m)
  = getQuestionCount other m.
Proof. mem_solve. Qed.

Lemma count_setVideoData videoId other p m :
  getQuestionCount other (setVideoData videoId p m) = getQuestionCount other m.
Proof. mem_solve. Qed.

Lemma count_cacheContextWindow videoId other t c m :
  getQuestionCount other (cacheContextWindow videoId t c m)
  = getQuestionCount other m.
Proof. mem_solve. Qed.

Lemma agentId_incrementQuestionCount videoId other m :
  getAgentId other (incrementQuestionCount videoId m) = getAgentId other m.
Proof. mem_solve. Qed.

Lemma transcript_setTranscript videoId t m :
  getTranscript videoId (setTranscript videoId t m) = Some t.
Proof. mem_solve. Qed.

Lemma cached_setTranscript videoId other t pausedTime m :
  getCachedContextWindow other pausedTime (setTranscript videoId t m)
  = getCachedContextWindow other pausedTime m.
Proof. mem_solve. Qed.

End MemoryFacts.

(** ** Conversational turns without an agent *)

Section StreamConversation.

Context {env : Env}.

(** C3 (as the code behaves).  A schema-valid [POST /stream-conversation]
    for a video that has no agent: when the quota is used up the answer is
    429, not 404; otherwise the answer is 404 and the question counter has
    been incremented all the same, since the route counts the turn before
    it looks for the agent. *)
Theorem stream_conversation_without_agent
    (oracle : Oracle) (body : gmap string JValue) (videoId text : string)
    (w : World) :
  streamConversationSchema body = inr (videoId, text) →
  as_truthy (memoryService.getAgentId videoId (memory w)) = None →
  let n := memoryService.getQuestionCount videoId (memory w) in
  let after := run oracle (POST_stream_conversation body) w in
  if bool_decide (MAX_QUESTIONS_PER_VIDEO ≤ n)%nat then
    after = (w, inr (sendError 429 quota_message NoDetails))
  else
    after.2 = inr (sendError 404 "Agent not found. Please create agent first."
                     NoDetails)
    ∧ memoryService.getQuestionCount videoId (memory after.1) = S n.
Proof.
  intros Hschema Hagent n after. subst after n.
  unfold run, router, stream_conversation, try_catch. rewrite Hschema. cbn.
  destruct (bool_decide _); cbn; [done|].
  rewrite agentId_incrementQuestionCount, Hagent. cbn.
  split; [done|]. apply count_incrementQuestionCount.
Qed.

End StreamConversation.

(** On a fresh server, a question for a video without an agent is
    answered 404 and counted. *)
Lemma stream_conversation_without_agent_witness :
  let after := @run sample_env sample_oracle
                 (POST_stream_conversation sample_question_body) boot in
  after.2 = inr (sendError 404 "Agent not found. Please create agent first."
                   NoDetails)
  ∧ memoryService.getQuestionCount "dQw4w9WgXcQ" (memory after.1) = 1%nat.
Proof.
  exact (@stream_conversation_without_agent sample_env sample_oracle
           sample_question_body "dQw4w9WgXcQ" "What is this about?" boot
           eq_refl eq_refl).
Defined.

(** ** The fast lane *)

Lemma as_truthy_Some (s : string) : s ≠ "" → as_truthy (Some s) = Some s.
Proof. intros. unfold as_truthy. by rewrite bool_decide_eq_false_2. Qed.

Lemma as_truthy_inv (o : option string) (s : string) :
  as_truthy o = Some s → o = Some s ∧ s ≠ "".
Proof.
  unfold as_truthy. destruct o as [s'|]; [|done].
  case_bool_decide; [done|]. by intros [= ->].
Qed.

(** The call counters of a world built from another one. *)
Ltac calls_solve :=
  unfold clone_calls, agent_calls; cbn;
  repeat rewrite List.filter_app; cbn; repeat rewrite app_nil_r; try done.

Section InstantContext.

Context {env : Env}.

(** A call has been rejected with [e], and the [catch] has run. *)
Ltac failed e :=
  destruct e as [m|m|]; cbn; (split; [calls_solve|]);
  (split; [left; first [ by exists (JsError m) | by exists (JsOther m)
                       | by exists JsNullish ]|]).

(** C1.  Once the cache holds a (non-empty) [voiceId] for a video, a
    request that reaches the cloning stage -- [POST /clone-voice] with a
    body the schema accepts, or [POST /instant-context] for a reference of
    that video -- never calls the cloning collaborator, whatever the
    environment does, and the answer carries the cached [voiceId]:
    [/clone-voice] answers it as soon as the cache has been read (500 if
    the read fails), [/instant-context] answers it unless a call it awaits
    fails (then its [catch] answers 500, or throws on [undefined] and
    [null]), and always when every call succeeds. *)
Theorem cached_voice_is_not_cloned_again
    (oracle : Oracle) (videoId voiceId : string) (w : World) :
  videoId ≠ "" →
  as_truthy (cacheService.getVoiceId videoId (cache w)) = Some voiceId →
  (∀ body speakerName sampleUrl,
     cloneVoiceSchema isURL body = inr (videoId, speakerName, sampleUrl) →
     let after := run oracle (POST_clone_voice body) w in
     clone_calls after.1 = clone_calls w
     ∧ match oracle _ (CacheGetVideoData videoId) 0%nat with
       | Resolved _ =>
           after.2 = inr (json (CloneVoiceResponse videoId voiceId
                            "Voice already cloned for this video (from cache)."))
       | Rejected e =>
           after.2 = inr (sendError 500 "Failed to clone voice"
                            (Detail (error_message e)))
       end)
  ∧ (∀ body,
       extractVideoId (field body "videoUrl") = inr (Some videoId) →
       let after := run oracle (POST_instant_context body) w in
       clone_calls after.1 = clone_calls w
       ∧ ((∃ e, after.2 = instant_context_failed e)
          ∨ ∃ contextWindow,
              after.2 = inr (json (InstantContextResponse videoId voiceId
                                     contextWindow)))
       ∧ (all_resolve oracle →
          ∃ contextWindow,
            after.2 = inr (json (InstantContextResponse videoId voiceId
                                   contextWindow)))).
Proof.
  intros Hne Hcached.
  split.
  - intros body speakerName sampleUrl Hschema after. subst after.
    unfold run, router, clone_voice, try_catch. rewrite Hschema. cbn.
    destruct (oracle _ (CacheGetVideoData videoId) 0%nat) as [x|e]; cbn.
    + unfold cacheService.getVoiceId, cacheService.getVideoData in *.
      rewrite Hcached. cbn. split; [calls_solve|done].
    + split; [calls_solve|done].
  - intros body Hx after. subst after.
    unfold run, router, instant_context, try_catch,
      youtubeService_extractVideoId.
    rewrite Hx. cbn. rewrite as_truthy_Some by done. cbn.
    destruct (oracle _ (CacheGetVoiceId videoId) 0%nat) as [x|e] eqn:E0; cbn.
    2:{ failed e; intros Hall;
          destruct (Hall _ (CacheGetVoiceId videoId) 0%nat); congruence. }
    rewrite Hcached.
    destruct (oracle _ (DownloadAudioSegment _ _) 1%nat)
      as [audioPath|e] eqn:E1; cbn.
    2:{ failed e; intros Hall;
          destruct (Hall _ (DownloadAudioSegment (field body "videoUrl")
                            (field body "pausedTime")) 1%nat); congruence. }
    destruct (oracle _ (TranscribeAudio _) 2%nat) as [segs|e] eqn:E2; cbn.
    2:{ failed e; intros Hall;
          destruct (Hall _ (TranscribeAudio audioPath) 2%nat); congruence. }
    destruct (oracle _ (Cleanup _) 3%nat) as [[]|e] eqn:E3; cbn.
    2:{ failed e; intros Hall;
          destruct (Hall _ (Cleanup audioPath) 3%nat); congruence. }
    split; [calls_solve|]. split; eauto.
Qed.

(** C4 (as the code behaves).  [POST /instant-context] removes the audio
    it downloaded only at the end of the path on which nothing failed:
    when the transcription is rejected, the [catch] answers 500 (or
    throws, when the rejection carries [undefined] or [null]) and the
    downloaded segment is still on disk. *)
Theorem instant_context_leaves_segment_when_transcription_fails
    (oracle : Oracle) (body : gmap string JValue) (videoId : string)
    (cached : option string) (audioPath : string) (e : Exn) (w : World) :
  extractVideoId (field body "videoUrl") = inr (Some videoId) →
  videoId ≠ "" →
  oracle _ (CacheGetVoiceId videoId) 0%nat = Resolved cached →
  oracle _ (DownloadAudioSegment (field body "videoUrl")
              (field body "pausedTime")) 1%nat = Resolved audioPath →
  oracle _ (TranscribeAudio audioPath) 2%nat = Rejected e →
  let after := run oracle (POST_instant_context body) w in
  audioPath ∈ files after.1
  ∧ after.2 = instant_context_failed e.
Proof.
  intros Hx Hne Hc Hd Ht after. subst after.
  unfold run, router, instant_context, try_catch, youtubeService_extractVideoId.
  rewrite Hx. cbn. rewrite as_truthy_Some by done. cbn.
  rewrite Hc. cbn. rewrite Hd. cbn. rewrite Ht. cbn.
  destruct e as [m|m|]; cbn; (split; [|done]);
    apply elem_of_union; left; by apply elem_of_singleton.
Qed.

End InstantContext.

(** The transcription of the downloaded segment fails: the segment stays
    on the disk of a server that held no file. *)
Lemma instant_context_leaves_segment_witness :
  let after := @run sample_env (failing_at 2 (JsError "timeout") sample_oracle)
                 (POST_instant_context sample_instant_body) boot in
  "/tmp/segment.mp3" ∈ files after.1
  ∧ after.2 = inr {| status := 500;
                     payload := ApiError "Failed to get instant context"
                                  (Detail "timeout") |}.
Proof.
  exact (@instant_context_leaves_segment_when_transcription_fails sample_env
           (failing_at 2 (JsError "timeout") sample_oracle)
           sample_instant_body "dQw4w9WgXcQ" None "/tmp/segment.mp3"
           (JsError "timeout") boot eq_refl ltac:(done) eq_refl eq_refl
           eq_refl).
Defined.

(** With a voice in the cache, the fast lane answers with it and the
    cloning collaborator is not called. *)
Lemma cached_voice_is_not_cloned_again_witness :
  let after := @run sample_env sample_oracle
                 (POST_instant_context sample_instant_body)
                 sample_cached_world in
  clone_calls after.1 = clone_calls sample_cached_world
  ∧ ((∃ e, after.2 = instant_context_failed e)
     ∨ ∃ contextWindow,
         after.2 = inr (json (InstantContextResponse "dQw4w9WgXcQ" "voice-0"
                                contextWindow)))
  ∧ (all_resolve sample_oracle →
     ∃ contextWindow,
       after.2 = inr (json (InstantContextResponse "dQw4w9WgXcQ" "voice-0"
                              contextWindow))).
Proof.
  exact (proj2 (@cached_voice_is_not_cloned_again sample_env sample_oracle
                  "dQw4w9WgXcQ" "voice-0" sample_cached_world ltac:(done)
                  eq_refl)
           sample_instant_body eq_refl).
Defined.

(** ** Context windows *)

Lemma truthy_JStr (s : string) : truthy (JStr s) = true ↔ s ≠ "".
Proof. simpl. rewrite negb_true_iff, bool_decide_eq_false. done. Qed.

Lemma middle_exists {A} (l : list A) :
  l ≠ [] → is_Some (l !! (length l / 2)%nat).
Proof.
  intros H. apply lookup_lt_is_Some. destruct l; [done|].
  apply Nat.div_lt; simpl; lia.
Qed.

Lemma transcript_record videoId m segments :
  memoryService.getTranscript videoId m = Some segments →
  ∃ record, memoryService.getVideoData videoId m = Some record
            ∧ memoryService.transcript record = Some segments.
Proof.
  unfold memoryService.getTranscript, memoryService.getVideoData.
  destruct (m !! videoId); [eauto|done].
Qed.

Lemma no_transcript_no_cached m videoId pausedTime :
  memory_wf m → memoryService.getTranscript videoId m = None →
  memoryService.getCachedContextWindow videoId pausedTime m = None.
Proof.
  intros Hwf.
  unfold memoryService.getTranscript, memoryService.getCachedContextWindow.
  destruct (m !! videoId) as [r|] eqn:E; simpl; [|done].
  intros Hnone. rewrite (Hwf _ _ E Hnone). done.
Qed.

Section ContextWindow.

Context {env : Env}.

Local Arguments Nat.div : simpl never.

Lemma getContextWindowForVideo_middle videoId segments middle w :
  memoryService.getTranscript videoId (memory w) = Some segments →
  segments !! (length segments / 2)%nat = Some middle →
  getContextWindowForVideo videoId w
  = (w, Ret (Some (getContextWindow segments (start middle)
                     MAX_CONTEXT_WINDOW_SECONDS))).
Proof.
  intros Htr Hmid. unfold getContextWindowForVideo, bind. cbn. rewrite Htr.
  rewrite bool_decide_eq_false_2.
  - rewrite Hmid. done.
  - intros Hlen. apply nil_length_inv in Hlen. by subst.
Qed.

(** C10.  When [POST /create-agent] creates an agent for a video whose
    transcript is not empty, the context window it hands to the
    agent-creation collaborator is the window around the start of the
    segment at index [floor(length / 2)], bounded by
    [MAX_CONTEXT_WINDOW_SECONDS]; nothing of the request but the video id
    and the speaker name enters.  (An empty window is answered 404 and
    no agent is created.) *)
Theorem create_agent_window_is_around_the_middle
    (oracle : Oracle) (body : gmap string JValue) (videoId voiceId : string)
    (segments : list TranscriptSegment) (w : World) :
  field body "videoId" = JStr videoId → videoId ≠ "" →
  truthy (field body "speakerName") = true →
  memoryService.getTranscript videoId (memory w) = Some segments →
  segments ≠ [] →
  as_truthy (memoryService.getAgentId videoId (memory w)) = None →
  as_truthy (memoryService.getVoiceId videoId (memory w)) = Some voiceId →
  ∃ middle, segments !! (length segments / 2)%nat = Some middle ∧
    let contextWindow :=
      getContextWindow segments (start middle) MAX_CONTEXT_WINDOW_SECONDS in
    let after := run oracle (POST_create_agent body) w in
    if bool_decide (contextWindow = "") then
      after = (w, inr (sendError 404
                         "Context window not found. Please prepare context first."
                         NoDetails))
    else
      invocations after.1
      = (invocations w
         ++ [Invoke (CreateAgent (field body "speakerName") voiceId
                       contextWindow)])%list.
Proof.
  intros Hid Hne Hsp Htr Hnil Hag Hvo.
  destruct (middle_exists segments Hnil) as [middle Hmid]. exists middle.
  split; [done|]. intros contextWindow after. subst after.
  unfold run, router, create_agent, try_catch. rewrite Hid, Hsp.
  rewrite (proj2 (truthy_JStr videoId) Hne). cbn.
  unfold memoryService_getVideoData. cbn.
  destruct (transcript_record _ _ _ Htr) as (record & Hrec & Htr').
  rewrite Hrec, Htr'. destruct segments as [|s0 segs]; [done|].
  cbn. rewrite Hag. cbn. rewrite Hvo. cbn.
  unfold await_async, try_catch, bind.
  rewrite (getContextWindowForVideo_middle _ _ _ _ Htr Hmid). cbn.
  fold contextWindow. unfold as_truthy.
  destruct (bool_decide (contextWindow = "")); cbn; [done|].
  destruct (oracle _ _ 1%nat); cbn; done.
Qed.

(** C7.  The context window of an empty transcript is the empty string,
    for every paused time and window bound, and nothing is thrown: so
    says the window builder (as the spec describes it), and so does the
    routes' own [getContextWindowForVideo], which returns [''] without
    calling the builder. *)
Theorem empty_transcript_gives_empty_window :
  (∀ pausedTime maxWindowSeconds,
     buildContextWindow [] pausedTime maxWindowSeconds = "")
  ∧ (∀ videoId w,
       memoryService.getTranscript videoId (memory w) = Some [] →
       getContextWindowForVideo videoId w = (w, Ret (Some ""))).
Proof.
  split; [done|]. intros videoId w Htr.
  unfold getContextWindowForVideo, bind. cbn. rewrite Htr. done.
Qed.

End ContextWindow.

Lemma boot_memory_wf : memory_wf (memory boot).
Proof. intros videoId r H. simpl in H. by rewrite lookup_empty in H. Qed.

(** The agent of the sample video is created around its middle segment,
    which starts at second 4. *)
Lemma create_agent_window_is_around_the_middle_witness :
  ∃ middle,
    sample_transcript !! (length sample_transcript / 2)%nat = Some middle ∧
    let contextWindow :=
      buildContextWindow sample_transcript (start middle) (seconds 30) in
    let after := @run sample_env sample_oracle
                   (POST_create_agent sample_agent_body)
                   sample_prepared_world in
    if bool_decide (contextWindow = "") then
      after = (sample_prepared_world,
               inr (sendError 404
                      "Context window not found. Please prepare context first."
                      NoDetails))
    else
      invocations after.1
      = (invocations sample_prepared_world
         ++ [Invoke (CreateAgent (field sample_agent_body "speakerName")
                       "voice-0" contextWindow)])%list.
Proof.
  exact (@create_agent_window_is_around_the_middle sample_env sample_oracle
           sample_agent_body "dQw4w9WgXcQ" "voice-0" sample_transcript
           sample_prepared_world eq_refl ltac:(done) eq_refl eq_refl
           ltac:(done) eq_refl eq_refl).
Defined.

(** A session record with an empty transcript. *)
Lemma empty_transcript_gives_empty_window_witness :
  let w := with_memory (memoryService.setTranscript "dQw4w9WgXcQ" []) boot in
  @getContextWindowForVideo sample_env "dQw4w9WgXcQ" w = (w, Ret (Some "")).
Proof.
  exact (proj2 (@empty_transcript_gives_empty_window sample_env)
           "dQw4w9WgXcQ"
           (with_memory (memoryService.setTranscript "dQw4w9WgXcQ" []) boot)
           eq_refl).
Defined.

(** ** Validation *)

Section Validation.

Context {env : Env}.

(** C9 (as the code behaves).  [POST /prepare-context] never consults
    [prepareContextSchema]: a body that the schema rejects has its job
    submitted to the queue all the same, as soon as [extractVideoId]
    finds a video id in whatever [videoUrl] holds; with the queue
    answering, the response is 202. *)
Theorem prepare_context_skips_its_schema
    (oracle : Oracle) (body : gmap string JValue) (videoId : string)
    (errors : list (string * string)) (w : World) :
  prepareContextSchema isURL body = inl errors →
  extractVideoId (field body "videoUrl") = inr (Some videoId) →
  videoId ≠ "" →
  let data :=
    {| job_videoId := videoId;
       job_videoUrl := field body "videoUrl";
       job_speakerName :=
         if truthy (field body "speakerName") then field body "speakerName"
         else JStr ("Speaker for " ++ videoId) |} in
  let after := run oracle (POST_prepare_context body) w in
  invocations after.1
  = (invocations w ++ [Invoke (QueueAdd "process-video" data)])%list
  ∧ ∀ job, oracle _ (QueueAdd "process-video" data) 0%nat = Resolved job →
      queue after.1
      = (queue w ++ [queue_add "process-video" data (queue w)])%list
      ∧ after.2
        = inr {| status := 202;
                 payload :=
                   JobAccepted
                     "Video processing has started in the background."
                     (pretty (S (length (queue w)))) |}.
Proof.
  intros _ Hx Hne data after. subst after.
  unfold run, router, prepare_context, youtubeService_extractVideoId.
  rewrite Hx. cbn. rewrite (as_truthy_Some _ Hne). cbn. fold data.
  destruct (oracle _ (QueueAdd "process-video" data) 0%nat) as [j|e] eqn:E;
    cbn; split; done.
Qed.

End Validation.

(** A reference without a scheme is no URL, so the schema rejects the
    body; the job is queued and the answer is 202. *)
Lemma prepare_context_skips_its_schema_witness :
  let body := sample_body [("videoUrl", JStr "youtu.be/dQw4w9WgXcQ")] in
  let data :=
    {| job_videoId := "dQw4w9WgXcQ";
       job_videoUrl := JStr "youtu.be/dQw4w9WgXcQ";
       job_speakerName := JStr "Speaker for dQw4w9WgXcQ" |} in
  let after := @run sample_env sample_oracle (POST_prepare_context body) boot in
  @prepareContextSchema (@isURL sample_env) body
  = inl [("videoUrl", "Invalid video URL")]
  ∧ queue after.1 = [queue_add "process-video" data []]
  ∧ after.2
    = inr {| status := 202;
             payload :=
               JobAccepted "Video processing has started in the background."
                 "1" |}.
Proof.
  split; [reflexivity|].
  exact (proj2 (@prepare_context_skips_its_schema sample_env sample_oracle
                  (sample_body [("videoUrl", JStr "youtu.be/dQw4w9WgXcQ")])
                  "dQw4w9WgXcQ" [("videoUrl", "Invalid video URL")] boot
                  eq_refl eq_refl ltac:(done))
           (queue_add "process-video"
              {| job_videoId := "dQw4w9WgXcQ";
                 job_videoUrl := JStr "youtu.be/dQw4w9WgXcQ";
                 job_speakerName := JStr "Speaker for dQw4w9WgXcQ" |} [])
           eq_refl).
Defined.

(** [POST /create-agent] has no schema either: a speaker name that is no
    string passes its hand-written check and reaches the agent-creation
    collaborator. *)
Example create_agent_takes_a_number_for_a_name :
  let body := sample_body [("videoId", JStr "dQw4w9WgXcQ");
                           ("speakerName", JNum (seconds 42))] in
  let after := @run sample_env sample_oracle (POST_create_agent body)
                 sample_prepared_world in
  invocations after.1
  = [Invoke (CreateAgent (JNum (seconds 42)) "voice-0" "Hello. ")]
  ∧ after.2 = inr (json (AgentResponse "agent-1")).
Proof. vm_compute. done. Qed.

(** ** The quota of questions *)

Section Quota.

Context {env : Env}.
Variable videoId : string.

Ltac count_side :=
  try done;
  try (intros; unfold same_count; cbn;
       first [ done | congruence
             | apply count_setVideoData | apply count_cacheContextWindow ]).

(** The routes that are no conversational turn leave every question
    counter alone, from their first line to their last. *)
Lemma prepare_context_count body :
  m_safe (same_count videoId) any_call any_reply (prepare_context body).
Proof.
  unfold prepare_context, youtubeService_extractVideoId. safe_go count_side.
Qed.

Lemma job_status_count jobId :
  m_safe (same_count videoId) any_call any_reply (job_status jobId).
Proof. unfold job_status. safe_go count_side. Qed.

Lemma instant_context_count body :
  m_safe (same_count videoId) any_call any_reply (instant_context body).
Proof.
  unfold instant_context, youtubeService_extractVideoId. safe_go count_side.
Qed.

Lemma clone_voice_count body :
  m_safe (same_count videoId) any_call any_reply (clone_voice body).
Proof. unfold clone_voice. safe_go count_side. Qed.

Lemma get_context_window_count body :
  m_safe (same_count videoId) any_call any_reply (get_context_window body).
Proof. unfold get_context_window. safe_go count_side. Qed.

Lemma create_agent_count body :
  m_safe (same_count videoId) any_call any_reply (create_agent body).
Proof.
  unfold create_agent, memoryService_getVideoData, getContextWindowForVideo.
  safe_go count_side.
Qed.

Lemma streaming_url_count agentId :
  m_safe (same_count videoId) any_call any_reply (streaming_url agentId).
Proof. unfold streaming_url. safe_go count_side. Qed.

Lemma speak_count body : m_safe (same_count videoId) any_call any_reply (speak body).
Proof. unfold speak. safe_go count_side. Qed.

(** What the arrival of a request does to the counter of [videoId]: a
    turn for the video is turned away with 429 and changes nothing when
    the counter has reached the limit, and else adds one; any other
    request leaves the counter as it is.  What is left of the handler
    never touches the counter again. *)
Lemma arrive_count (req : Request) (w : World) :
  let n := memoryService.getQuestionCount videoId (memory w) in
  res_safe (same_count videoId) any_call any_reply (router req w).2
  ∧ (turn_video req ≠ Some videoId → same_count videoId w (router req w).1)
  ∧ (turn_video req = Some videoId →
     if bool_decide (MAX_QUESTIONS_PER_VIDEO ≤ n)%nat then
       router req w = (w, Ret (sendError 429 quota_message NoDetails))
     else
       memoryService.getQuestionCount videoId (memory (router req w).1) = S n
       ∧ ∀ response,
           (router req w).2 = Ret response → status response ≠ 429%nat).
Proof.
  intros n.
  assert (∀ m : M Response, m_safe (same_count videoId) any_call any_reply m →
          res_safe (same_count videoId) any_call any_reply (m w).2
          ∧ same_count videoId w (m w).1) as Hsafe.
  { intros m Hm. specialize (Hm w). destruct (m w). simpl. tauto. }
  destruct req as [body|jobId|body|body|body|body|body|body|agentId|body];
    simpl turn_video; simpl router.
  1-5,7,9-10:
    (split; [|split; [intros _|done]]; apply Hsafe;
     first [ apply prepare_context_count | apply job_status_count
           | apply instant_context_count | apply clone_voice_count
           | apply get_context_window_count | apply create_agent_count
           | apply streaming_url_count | apply speak_count ]).
  - unfold build_conversation, try_catch.
    destruct (buildConversationSchema body)
      as [errors|[[[[v o] sp] c] q]]; cbn.
    { done. }
    destruct (decide (v = videoId)) as [->|Hne].
    + fold n.
      destruct (bool_decide (MAX_QUESTIONS_PER_VIDEO ≤ n)%nat) eqn:E; cbn.
      * done.
      * split; [done|]. split; [done|]. intros _. split.
        -- apply count_incrementQuestionCount.
        -- intros response [= <-]. done.
    + split; [by destruct (bool_decide _)|]. split; [|congruence]. intros _.
      destruct (bool_decide _); cbn; [done|].
      unfold same_count. cbn. by apply count_incrementQuestionCount_ne.
  - unfold stream_conversation, try_catch.
    destruct (streamConversationSchema body) as [errors|[v text]]; cbn.
    { done. }
    assert (∀ w0, res_safe (same_count videoId) any_call any_reply
              (let (w', r) :=
                 match as_truthy (memoryService.getAgentId v
                         (memoryService.incrementQuestionCount v (memory w)))
                 with
                 | Some agentId =>
                     response <- await (StreamConversation agentId text) ;;
                     ret (json (RelayResponse response))
                 | None =>
                     ret (sendError 404
                            "Agent not found. Please create agent first."
                            NoDetails)
                 end w0 in
               catch_res r
                 (λ error, ret (sendError 500 "Failed to stream conversation"
                                  (Detail (error_message error)))) w').2)
      as Hlater.
    { intros w0. destruct (as_truthy _); cbn; [|done]. split; [done|].
      intros [x|e] _ w1; cbn; done. }
    destruct (decide (v = videoId)) as [->|Hne].
    + fold n.
      destruct (bool_decide (MAX_QUESTIONS_PER_VIDEO ≤ n)%nat) eqn:E; cbn.
      * done.
      * split; [apply Hlater|]. split; [done|]. intros _. split.
        -- destruct (as_truthy _); cbn; apply count_incrementQuestionCount.
        -- destruct (as_truthy _); cbn; [done|]. intros response [= <-]. done.
    + split; [destruct (bool_decide _); [done|apply Hlater]|].
      split; [|congruence]. intros _.
      destruct (bool_decide _); cbn; [done|].
      unfold same_count. destruct (as_truthy _); cbn;
        by apply count_incrementQuestionCount_ne.
Qed.

(** A turn that passes the check, by route. *)
Lemma arrive_turn (req : Request) (w : World) :
  turn_video req = Some videoId →
  (memoryService.getQuestionCount videoId (memory w)
   < MAX_QUESTIONS_PER_VIDEO)%nat →
  turn_passed videoId req w (thread_of (router req w).2).
Proof.
  intros Hturn Hlt.
  destruct req as [body|jobId|body|body|body|body|body|body|agentId|body];
    try done; simpl in Hturn; simpl.
  - unfold build_conversation, try_catch.
    destruct (buildConversationSchema body)
      as [errors|[[[[v o] sp] c] q]]; [done|].
    injection Hturn as ->. cbn.
    rewrite bool_decide_eq_false_2 by lia. cbn. by repeat eexists.
  - unfold stream_conversation, try_catch.
    destruct (streamConversationSchema body) as [errors|[v text]]; [done|].
    injection Hturn as ->. cbn.
    rewrite bool_decide_eq_false_2 by lia. cbn.
    rewrite agentId_incrementQuestionCount. exists text. split; [done|].
    destruct (as_truthy _) as [agentId|]; cbn; [|done].
    eexists. split; [done|]. by intros [response|e] w'.
Qed.

Lemma turns_app (l k : list Event) :
  turns videoId (l ++ k) = (turns videoId l + turns videoId k)%nat.
Proof. unfold turns. by rewrite List.filter_app, length_app. Qed.

Lemma turns_snoc (schedule : list Event) (ev : Event) :
  turns videoId (schedule ++ [ev])
  = (turns videoId schedule + (if is_turn videoId ev then 1 else 0))%nat.
Proof.
  rewrite turns_app. unfold turns at 2. simpl.
  by destruct (is_turn videoId ev).
Qed.

(** After any schedule, the counter is the counter at the start plus the
    number of turns that arrived, capped by the limit. *)
Lemma exec_count (oracle : Oracle) (w0 : World) (schedule : list Event) :
  let c0 := memoryService.getQuestionCount videoId (memory w0) in
  let s := exec oracle (idle w0) schedule in
  memoryService.getQuestionCount videoId (memory (world s))
  = (c0 + min (turns videoId schedule) (MAX_QUESTIONS_PER_VIDEO - c0))%nat
  ∧ Forall (thread_safe (same_count videoId) any_call any_reply) (threads s).
Proof.
  intros c0. induction schedule as [|ev schedule IH] using rev_ind.
  - simpl. split; [subst c0; unfold turns; simpl; lia|done].
  - rewrite exec_snoc. cbv zeta in IH. destruct IH as [IHn IHt].
    set (s := exec oracle (idle w0) schedule) in *.
    split;
      [|apply (step_threads_safe (same_count videoId) any_call any_reply
                 (λ _, True)); try done; intros; apply arrive_count].
    rewrite turns_snoc.
    destruct ev as [req|tid|tid].
    2,3: (simpl is_turn; rewrite Nat.add_0_r, <- IHn;
          apply (step_quiet (same_count videoId) any_call any_reply oracle s);
          [done|intros; unfold same_count; by rewrite perform_memory
          |done|done]).
    simpl is_turn.
    pose proof (arrive_count req (world s)) as (_ & Hother & Hturn).
    simpl step. destruct (router req (world s)) as [w' r] eqn:Hr. simpl world.
    simpl in Hother, Hturn.
    destruct (decide (turn_video req = Some videoId)) as [Ht|Ht].
    + rewrite (bool_decide_eq_true_2 _ Ht). specialize (Hturn Ht).
      destruct (bool_decide (MAX_QUESTIONS_PER_VIDEO ≤ _)%nat) eqn:Hq.
      * apply bool_decide_eq_true in Hq. injection Hturn as -> ->. lia.
      * apply bool_decide_eq_false in Hq. destruct Hturn as [-> _]. lia.
    + rewrite (bool_decide_eq_false_2 _ Ht). rewrite (Hother Ht). lia.
Qed.

(** C2 (as the code behaves).  Whatever the environment does and however
    the requests are interleaved: when a conversational turn for the video arrives
    ([POST /build-conversation] or [POST /stream-conversation] with a body
    its schema accepts), the counter holds the counter at the start plus
    the number of turns that arrived before, capped by
    [MAX_QUESTIONS_PER_VIDEO]; if that many turns have used the quota up,
    the turn is answered 429 on the spot and nothing changes; otherwise
    it passes the check and the counter grows by exactly one.  So on a
    fresh video exactly the first [MAX_QUESTIONS_PER_VIDEO] turns pass,
    and two turns that pass never read the same counter value: the later
    one reads a larger one.  A [POST /build-conversation] that passes is
    answered 200 with the conversation.  A [POST /stream-conversation]
    that passes is relayed to the agent only when the video has one:
    without an agent it is answered 404, and has used up one of the
    video's questions all the same. *)
Theorem quota_holds_under_every_interleaving (oracle : Oracle) (w0 : World) :
  let count (s : Server) :=
    memoryService.getQuestionCount videoId (memory (world s)) in
  let c0 := memoryService.getQuestionCount videoId (memory w0) in
  (∀ pre req,
     turn_video req = Some videoId →
     let before := exec oracle (idle w0) pre in
     let after := step oracle before (Arrive req) in
     count before
     = (c0 + min (turns videoId pre) (MAX_QUESTIONS_PER_VIDEO - c0))%nat
     ∧ if bool_decide (MAX_QUESTIONS_PER_VIDEO ≤ c0 + turns videoId pre)%nat
       then
         after = {| world := world before;
                    threads :=
                      threads before
                      ++ [Finished (sendError 429 quota_message NoDetails)];
                    clock := S (clock before) |}
       else
         count after = S (count before)
         ∧ ∃ t, threads after = (threads before ++ [t])%list
                ∧ turn_passed videoId req (world before) t
                ∧ ∀ response,
                    t = Finished response → status response ≠ 429%nat)
  ∧ (∀ pre req mid req',
       turn_video req = Some videoId →
       turn_video req' = Some videoId →
       let first := exec oracle (idle w0) pre in
       let second := exec oracle (idle w0) (pre ++ Arrive req :: mid) in
       (count second < MAX_QUESTIONS_PER_VIDEO)%nat →
       (count first < count second)%nat).
Proof.
  intros count c0. split.
  - intros pre req Hturn before after.
    destruct (exec_count oracle w0 pre) as [Hn _]. fold c0 in Hn.
    fold before in Hn. split; [exact Hn|].
    pose proof (arrive_count req (world before)) as (_ & _ & Harrive).
    specialize (Harrive Hturn). cbv zeta in Harrive.
    pose proof (arrive_turn req (world before) Hturn) as Hpassed.
    subst after. unfold step.
    destruct (router req (world before)) as [w' r] eqn:Hr.
    assert (bool_decide (MAX_QUESTIONS_PER_VIDEO
                         ≤ memoryService.getQuestionCount videoId
                             (memory (world before)))%nat
            = bool_decide (MAX_QUESTIONS_PER_VIDEO
                           ≤ c0 + turns videoId pre)%nat) as Hsame.
    { apply bool_decide_ext. rewrite Hn. lia. }
    rewrite Hsame in Harrive.
    destruct (bool_decide (MAX_QUESTIONS_PER_VIDEO ≤ c0 + _)%nat) eqn:Hquota.
    + injection Harrive as -> ->. done.
    + simpl in Harrive. destruct Harrive as [Hcount Hresp].
      split; [exact Hcount|]. exists (thread_of r). split; [done|]. split.
      * apply Hpassed. apply bool_decide_eq_false_1 in Hquota.
        rewrite Hn. lia.
      * intros response Ht. apply Hresp.
        destruct r; simpl in Ht; congruence.
  - intros pre req mid req' Hturn _ first second Hlt.
    destruct (exec_count oracle w0 pre) as [Hn1 _].
    destruct (exec_count oracle w0 (pre ++ Arrive req :: mid)) as [Hn2 _].
    fold c0 in Hn1, Hn2. fold first in Hn1. fold second in Hn2.
    subst count. cbv beta in *. rewrite Hn1. rewrite Hn2 in Hlt |- *.
    rewrite turns_app in Hlt |- *.
    change (Arrive req :: mid) with ([Arrive req] ++ mid)%list in Hlt |- *.
    rewrite turns_app in Hlt |- *.
    assert (turns videoId [Arrive req] = 1%nat) as ->.
    { unfold turns. simpl. by rewrite (bool_decide_eq_true_2 _ Hturn). }
    lia.
Qed.

End Quota.

(** With a limit of two questions, on a server that has no agent for
    the video: two turns of [POST /stream-conversation] are each answered
    404 and use the quota up; the [POST /build-conversation] that follows
    is answered 429, although no turn has been served. *)
Lemma quota_holds_under_every_interleaving_witness :
  let turn := Arrive (POST_stream_conversation sample_question_body) in
  let talk := POST_build_conversation sample_conversation_body in
  let before := @exec sample_env sample_oracle (idle boot) [turn; turn] in
  let not_found :=
    Finished (sendError 404 "Agent not found. Please create agent first."
                NoDetails) in
  threads before = [not_found; not_found]
  ∧ memoryService.getQuestionCount "dQw4w9WgXcQ" (memory (world before))
    = 2%nat
  ∧ @step sample_env sample_oracle before (Arrive talk)
    = {| world := world before;
         threads :=
           threads before
           ++ [Finished (sendError 429 (@quota_message sample_env) NoDetails)];
         clock := S (clock before) |}.
Proof.
  split; [reflexivity|].
  exact (proj1 (@quota_holds_under_every_interleaving sample_env
                  "dQw4w9WgXcQ" sample_oracle boot)
           [Arrive (POST_stream_conversation sample_question_body);
            Arrive (POST_stream_conversation sample_question_body)]
           (POST_build_conversation sample_conversation_body) eq_refl).
Defined.

(** ** Writes to the cache *)

Lemma cached_setVideoData f videoId other data c :
  (cacheService.setVideoData videoId data c !! other ≫= supplied f)
  = if bool_decide (videoId = other)
    then from_option Some (c !! other ≫= supplied f) (supplied f data)
    else c !! other ≫= supplied f.
Proof.
  unfold cacheService.setVideoData. case_bool_decide as Hid.
  - subst. rewrite lookup_insert_eq. simpl.
    destruct f; destruct (c !! other) as [[? ? ?]|];
      destruct data as [[?|] [?|] [?|]]; done.
  - by rewrite lookup_insert_ne.
Qed.

Section CacheWrites.

Context {env : Env}.

Ltac only_side := try done; try (intros; simpl; done).

(** Whatever happens, a cache write of [POST /instant-context] supplies
    the [voiceId] and nothing else. *)
Lemma instant_context_supplies_voiceId body :
  m_safe anything voiceId_only any_reply (instant_context body).
Proof.
  unfold instant_context, youtubeService_extractVideoId. safe_go only_side.
Qed.

Variable P : string → option string.

Ltac path_side :=
  try done;
  try (intros; unfold same_cache; simpl in *;
       first [done | congruence | by left | by right | tauto]).

(** No route touches the cache between two [await]s, and the sample
    path a route writes is the one it read from the cache. *)
Lemma router_sample_path req :
  m_safe same_cache (keeps_sample_path P) (reads_sample_path P) (router req).
Proof.
  destruct req; simpl;
    unfold prepare_context, job_status, instant_context, clone_voice,
      get_context_window, build_conversation, create_agent,
      stream_conversation, streaming_url, speak,
      youtubeService_extractVideoId, memoryService_getVideoData,
      getContextWindowForVideo;
    safe_go path_side.
Qed.

Lemma same_cache_paths w w' :
  same_cache w w' → sample_paths_are P w → sample_paths_are P w'.
Proof. unfold same_cache, sample_paths_are, cached. by intros ->. Qed.

Lemma perform_sample_path {X} (c : Call X) o w :
  keeps_sample_path P (Invoke c) → sample_paths_are P w →
  sample_paths_are P (perform c o w).1
  ∧ reads_sample_path P X c (perform c o w).2.
Proof.
  intros Hc Hw. destruct c; destruct o as [x|e]; simpl; try done.
  - split; [done|]. apply (Hw videoId).
  - split; [|done]. intros other. unfold cached. simpl.
    rewrite (cached_setVideoData Field_voiceSamplePath).
    case_bool_decide as Hid; [subst|apply Hw].
    specialize (Hw other). unfold cached in Hw. rewrite Hw.
    simpl in Hc |- *. destruct Hc as [-> | ->]; simpl; [done|].
    by destruct (P other).
Qed.

Lemma router_sample_path_later req w :
  res_safe same_cache (keeps_sample_path P) (reads_sample_path P)
    (router req w).2.
Proof.
  pose proof (router_sample_path req w) as H.
  destruct (router req w). simpl. tauto.
Qed.

Lemma router_sample_path_world req w :
  sample_paths_are P w → sample_paths_are P (router req w).1.
Proof.
  intros Hw. pose proof (router_sample_path req w) as H.
  destruct (router req w). simpl. destruct H as [H _].
  by eapply same_cache_paths.
Qed.

End CacheWrites.

(** C5.  In every state the server can reach, whatever the environment
    does and however the requests race: a step changes a field of a
    video's cache entry only when it completes a cache write for that
    video whose data supplies the field, and the field then holds the
    supplied value -- every other field of the entry, and every other
    entry, is as before; the voice sample path of an entry is never
    changed at all (the one write that carries it, of [POST /clone-voice],
    carries the value it read); and a write of [POST /instant-context]
    supplies the [voiceId] alone. *)
Theorem cache_writes_keep_unrelated_fields {env : Env}
    (oracle : Oracle) (w0 : World) (schedule : list Event) (ev : Event)
    (videoId : string) :
  let s := exec oracle (idle w0) schedule in
  let s' := step oracle s ev in
  (∀ f, cached f videoId (world s') ≠ cached f videoId (world s) →
     ∃ tid data k v,
       ev = Settle tid
       ∧ threads s !! tid = Some (Pending (CacheSetVideoData videoId data) k)
       ∧ supplied f data = Some v
       ∧ cached f videoId (world s') = Some v)
  ∧ cached Field_voiceSamplePath videoId (world s')
    = cached Field_voiceSamplePath videoId (world s)
  ∧ ∀ body, m_safe anything voiceId_only any_reply (instant_context body).
Proof.
  intros s s'.
  set (P := λ other, cached Field_voiceSamplePath other w0).
  destruct (exec_threads_safe same_cache (keeps_sample_path P)
              (reads_sample_path P) (sample_paths_are P)
              (router_sample_path_later P) (router_sample_path_world P)
              (same_cache_paths P) (λ X, @perform_sample_path P X)
              oracle (idle w0) schedule) as [Hs Ht]; [done|].
  fold s in Hs, Ht.
  split; [|split; [|apply instant_context_supplies_voiceId]].
  - intros f Hchg. subst s'. destruct ev as [req|tid|tid]; simpl in Hchg.
    + pose proof (router_sample_path P req (world s)) as Hr.
      destruct (router req (world s)) as [w' r]. simpl in Hchg.
      destruct Hr as [Hr _].
      unfold cached in Hchg. by rewrite Hr in Hchg.
    + destruct (threads s !! tid) as [t|] eqn:E; [|done].
      destruct t as [X c k|rest|response|error]; try done.
      destruct c; destruct (oracle _ _ (clock s)) as [x|e] eqn:Eo;
        simpl in Hchg; try done.
      unfold cached in Hchg. simpl in Hchg.
      rewrite cached_setVideoData in Hchg.
      case_bool_decide as Hid; [subst|done].
      match goal with
      | _ : _ = Some (Pending (CacheSetVideoData _ ?d) ?k') |- _ =>
          destruct (supplied f d) as [v|] eqn:Ef; [|done];
          exists tid, d, k', v
      end.
      split; [done|]. split; [done|]. split; [done|].
      simpl. rewrite E, Eo. simpl. unfold cached. simpl.
      rewrite cached_setVideoData, bool_decide_eq_true_2 by done.
      by rewrite Ef.
    + destruct (threads s !! tid) as [t|] eqn:E; [|done].
      destruct t as [X c k|rest|response|error]; try done.
      eapply Forall_lookup_1 in E; [|done]. simpl in E.
      specialize (E (world s)).
      destruct (rest (world s)) as [w' r]. simpl in Hchg.
      destruct E as [Hr _]. unfold cached in Hchg. by rewrite Hr in Hchg.
  - destruct (step_threads_safe same_cache (keeps_sample_path P)
                (reads_sample_path P) (sample_paths_are P)
                (router_sample_path_later P) (router_sample_path_world P)
                (same_cache_paths P) (λ X, @perform_sample_path P X)
                oracle s ev) as [Hs' _]; [done|].
    fold s' in Hs'. by rewrite (Hs videoId), (Hs' videoId).
Qed.

(** The fast lane clones a voice for a video whose cache entry already
    names the speaker and the voice sample: its write adds the [voiceId]
    and leaves the two other fields as they were. *)
Lemma cache_writes_keep_unrelated_fields_witness :
  let serve := [Settle 0; Resume 0] in
  let schedule :=
    (Arrive (POST_instant_context sample_instant_body)
     :: serve ++ serve ++ serve ++ serve ++ serve)%list in
  let s := @exec sample_env sample_oracle (idle sample_uncloned_world)
             schedule in
  let s' := @step sample_env sample_oracle s (Settle 0) in
  (cached Field_voiceSamplePath "dQw4w9WgXcQ" (world s')
   = cached Field_voiceSamplePath "dQw4w9WgXcQ" (world s))
  ∧ cache (world s') !! "dQw4w9WgXcQ"
    = Some {| cacheService.voiceId := Some "voice-1";
              cacheService.speakerName := Some "Rick";
              cacheService.voiceSamplePath := Some "/tmp/full-sample.mp3" |}.
Proof.
  split.
  - exact (proj1 (proj2 (@cache_writes_keep_unrelated_fields sample_env
                           sample_oracle sample_uncloned_world
                           (Arrive (POST_instant_context sample_instant_body)
                            :: [Settle 0; Resume 0] ++ [Settle 0; Resume 0]
                               ++ [Settle 0; Resume 0] ++ [Settle 0; Resume 0]
                               ++ [Settle 0; Resume 0])%list
                           (Settle 0) "dQw4w9WgXcQ"))).
  - vm_compute. reflexivity.
Defined.

(** * Further properties of the routes *)

Lemma sample_oracle_resolves (t : nat) : resolves sample_oracle t.
Proof. intros X c. destruct c; simpl; eauto. Qed.

Lemma as_truthy_None_cases (o : option string) :
  as_truthy o = None ↔ o = None ∨ o = Some "".
Proof.
  unfold as_truthy. destruct o as [s|]; [|by split; [left|]].
  case_bool_decide as H.
  - subst. by split; [right|].
  - split; [done|]. intros [?|[= ?]]; done.
Qed.

(** ** Validation *)

Section SchemaChecks.

Context {env : Env}.

(** The five routes that parse their body with a schema answer a body
    the schema rejects with 400 and the schema's issues, before they read
    or write any store and before they call anything. *)
Theorem schema_violations_are_rejected_first
    (body : gmap string JValue) (errors : list (string * string))
    (w : World) :
  let rejected :=
    (w, Ret (sendError 400 "Invalid request data" (Issues errors))) in
  (cloneVoiceSchema isURL body = inl errors →
   router (POST_clone_voice body) w = rejected)
  ∧ (getContextWindowSchema body = inl errors →
     router (POST_get_context_window body) w = rejected)
  ∧ (buildConversationSchema body = inl errors →
     router (POST_build_conversation body) w = rejected)
  ∧ (streamConversationSchema body = inl errors →
     router (POST_stream_conversation body) w = rejected)
  ∧ (speakSchema body = inl errors →
     router (POST_speak body) w = rejected).
Proof.
  intros rejected. repeat split; intros H; simpl;
    unfold clone_voice, get_context_window, build_conversation,
      stream_conversation, speak, try_catch; by rewrite H.
Qed.

(** A video reference in which [extractVideoId] finds no id (or an empty
    one) is answered 400 by both routes that take a reference, and
    nothing else happens. *)
Theorem unknown_reference_is_refused
    (oracle : Oracle) (body : gmap string JValue) (videoId : option string)
    (w : World) :
  extractVideoId (field body "videoUrl") = inr videoId →
  as_truthy videoId = None →
  let refused :=
    {| status := 400; payload := ApiError "Invalid YouTube URL" NoDetails |} in
  run oracle (POST_prepare_context body) w = (w, inr refused)
  ∧ run oracle (POST_instant_context body) w = (w, inr refused).
Proof.
  intros Hx Hnone refused. split;
    unfold run, router, prepare_context, instant_context, try_catch,
      youtubeService_extractVideoId; rewrite Hx; cbn; rewrite Hnone; done.
Qed.

(** When [extractVideoId] throws, [POST /instant-context] answers 500
    from its [catch] (unless [undefined] or [null] was thrown: then the
    [catch] throws in turn), while [POST /prepare-context], which has no
    [try], ends in an unhandled rejection and answers nothing. *)
Theorem extractVideoId_may_throw
    (oracle : Oracle) (body : gmap string JValue) (e : Exn) (w : World) :
  extractVideoId (field body "videoUrl") = inl e →
  run oracle (POST_prepare_context body) w = (w, inl e)
  ∧ run oracle (POST_instant_context body) w
    = (w, instant_context_failed e).
Proof.
  intros Hx. split;
    unfold run, router, prepare_context, instant_context, try_catch,
      youtubeService_extractVideoId; rewrite Hx; cbn; [done|].
  by destruct e.
Qed.

End SchemaChecks.

(** A question without text is turned away before the quota is read:
    the counter of the video stays at zero. *)
Lemma schema_violations_are_rejected_first_witness :
  let body := sample_body [("videoId", JStr "dQw4w9WgXcQ")] in
  @router sample_env (POST_stream_conversation body) boot
  = (boot, Ret (sendError 400 "Invalid request data"
                  (Issues [("text", "Required")]))).
Proof.
  exact (proj1 (proj2 (proj2 (proj2
           (@schema_violations_are_rejected_first sample_env
              (sample_body [("videoId", JStr "dQw4w9WgXcQ")])
              [("text", "Required")] boot)))) eq_refl).
Defined.

Lemma unknown_reference_is_refused_witness :
  let body := sample_body [("videoUrl", JStr "https://example.org/video")] in
  let refused :=
    {| status := 400; payload := ApiError "Invalid YouTube URL" NoDetails |} in
  @run sample_env sample_oracle (POST_prepare_context body) boot
  = (boot, inr refused)
  ∧ @run sample_env sample_oracle (POST_instant_context body) boot
    = (boot, inr refused).
Proof.
  exact (@unknown_reference_is_refused sample_env sample_oracle
           (sample_body [("videoUrl", JStr "https://example.org/video")])
           None boot eq_refl eq_refl).
Defined.

(** A body without [videoUrl]: the sample [extractVideoId] throws on
    [undefined]. *)
Lemma extractVideoId_may_throw_witness :
  @run sample_env sample_oracle (POST_prepare_context ∅) boot
  = (boot, inl (JsError "url.match is not a function"))
  ∧ @run sample_env sample_oracle (POST_instant_context ∅) boot
    = (boot, inr {| status := 500;
                    payload :=
                      ApiError "Failed to get instant context"
                        (Detail "url.match is not a function") |}).
Proof.
  exact (@extractVideoId_may_throw sample_env sample_oracle ∅
           (JsError "url.match is not a function") boot eq_refl).
Defined.

(** ** The fast lane, step by step *)

Section FastLane.

Context {env : Env}.

(** When nothing fails and the cache holds no voice for the video,
    [POST /instant-context] answers with the voice it cloned and the
    texts of the segment joined by spaces; the voice is in the cache
    afterwards, the cloning collaborator was called once, and neither the
    downloaded segment nor the voice sample is left on disk. *)
Theorem instant_context_success
    (oracle : Oracle) (body : gmap string JValue) (videoId : string)
    (audioPath samplePath voiceId : string)
    (segments : list TranscriptSegment) (w : World) :
  let videoUrl := field body "videoUrl" in
  let speakerName := field body "speakerName" in
  extractVideoId videoUrl = inr (Some videoId) → videoId ≠ "" →
  as_truthy (cacheService.getVoiceId videoId (cache w)) = None →
  resolves oracle 0 →
  oracle _ (DownloadAudioSegment videoUrl (field body "pausedTime")) 1%nat
  = Resolved audioPath →
  oracle _ (TranscribeAudio audioPath) 2%nat = Resolved segments →
  oracle _ (ExtractVoiceSample audioPath 30) 3%nat = Resolved samplePath →
  oracle _ (CloneVoice speakerName samplePath) 4%nat = Resolved voiceId →
  resolves oracle 5 → resolves oracle 6 → resolves oracle 7 →
  let after := run oracle (POST_instant_context body) w in
  after.2 = inr (json (InstantContextResponse videoId voiceId
                         (String.concat " " (map text segments))))
  ∧ cacheService.getVoiceId videoId (cache after.1) = Some voiceId
  ∧ files after.1 = files w ∖ {[audioPath; samplePath]}
  ∧ clone_calls after.1 = S (clone_calls w).
Proof.
  intros videoUrl speakerName Hx Hne Hmiss H0 H1 H2 H3 H4 H5 H6 H7 after.
  subst after videoUrl speakerName.
  unfold run, router, instant_context, try_catch, youtubeService_extractVideoId.
  rewrite Hx. cbn. rewrite as_truthy_Some by done. cbn.
  destruct (H0 _ (CacheGetVoiceId videoId)) as [x0 ->]. cbn. rewrite Hmiss.
  rewrite H1. cbn. rewrite H2. cbn. rewrite H3. cbn. rewrite H4. cbn.
  destruct (H5 _ (CacheSetVideoData videoId
                    {| cacheService.voiceId := Some voiceId;
                       cacheService.speakerName := None;
                       cacheService.voiceSamplePath := None |})) as [x5 ->].
  cbn. destruct (H6 _ (Cleanup samplePath)) as [x6 ->]. cbn.
  destruct (H7 _ (Cleanup audioPath)) as [x7 ->]. cbn.
  split; [done|]. split; [|split].
  - unfold cacheService.getVoiceId, cacheService.setVideoData.
    by rewrite lookup_insert_eq.
  - apply set_eq. intros x.
    rewrite !elem_of_difference, !elem_of_union, !elem_of_singleton.
    tauto.
  - calls_solve. rewrite ?length_app. simpl. lia.
Qed.

(** When the cloning collaborator fails, the [catch] answers 500 (or
    throws, when the rejection carries [undefined] or [null]), the cache
    is as before, and both the downloaded segment and the extracted voice
    sample are still on disk. *)
Theorem instant_context_leaves_both_files_when_cloning_fails
    (oracle : Oracle) (body : gmap string JValue) (videoId : string)
    (audioPath samplePath : string) (e : Exn)
    (segments : list TranscriptSegment) (w : World) :
  let videoUrl := field body "videoUrl" in
  let speakerName := field body "speakerName" in
  extractVideoId videoUrl = inr (Some videoId) → videoId ≠ "" →
  as_truthy (cacheService.getVoiceId videoId (cache w)) = None →
  resolves oracle 0 →
  oracle _ (DownloadAudioSegment videoUrl (field body "pausedTime")) 1%nat
  = Resolved audioPath →
  oracle _ (TranscribeAudio audioPath) 2%nat = Resolved segments →
  oracle _ (ExtractVoiceSample audioPath 30) 3%nat = Resolved samplePath →
  oracle _ (CloneVoice speakerName samplePath) 4%nat = Rejected e →
  let after := run oracle (POST_instant_context body) w in
  after.2 = instant_context_failed e
  ∧ audioPath ∈ files after.1 ∧ samplePath ∈ files after.1
  ∧ cache after.1 = cache w.
Proof.
  intros videoUrl speakerName Hx Hne Hmiss H0 H1 H2 H3 H4 after.
  subst after videoUrl speakerName.
  unfold run, router, instant_context, try_catch, youtubeService_extractVideoId.
  rewrite Hx. cbn. rewrite as_truthy_Some by done. cbn.
  destruct (H0 _ (CacheGetVoiceId videoId)) as [x0 ->]. cbn. rewrite Hmiss.
  rewrite H1. cbn. rewrite H2. cbn. rewrite H3. cbn. rewrite H4. cbn.
  destruct e as [m|m|]; cbn; (split; [done|]);
    (split; [|split; [|done]]);
    rewrite !elem_of_union, !elem_of_singleton; tauto.
Qed.

End FastLane.

Lemma instant_context_success_witness :
  let after := @run sample_env sample_oracle
                 (POST_instant_context sample_instant_body) boot in
  after.2 = inr (json (InstantContextResponse "dQw4w9WgXcQ" "voice-1"
                         "Hello.  Welcome back.  Today: proofs."))
  ∧ cacheService.getVoiceId "dQw4w9WgXcQ" (cache after.1) = Some "voice-1"
  ∧ files after.1 = files boot ∖ {["/tmp/segment.mp3"; "/tmp/sample.mp3"]}
  ∧ clone_calls after.1 = S (clone_calls boot).
Proof.
  exact (@instant_context_success sample_env sample_oracle
           sample_instant_body "dQw4w9WgXcQ" "/tmp/segment.mp3"
           "/tmp/sample.mp3" "voice-1" sample_transcript boot
           eq_refl ltac:(done) eq_refl (sample_oracle_resolves 0)
           eq_refl eq_refl eq_refl eq_refl (sample_oracle_resolves 5)
           (sample_oracle_resolves 6) (sample_oracle_resolves 7)).
Defined.

Lemma failing_at_resolves (t t0 : nat) (e : Exn) :
  t ≠ t0 → resolves (failing_at t0 e sample_oracle) t.
Proof.
  intros Hne X c. unfold failing_at. rewrite bool_decide_eq_false_2 by done.
  apply sample_oracle_resolves.
Qed.

Lemma instant_context_leaves_both_files_witness :
  let after := @run sample_env (failing_at 4 (JsOther None) sample_oracle)
                 (POST_instant_context sample_instant_body) boot in
  after.2 = inr {| status := 500;
                   payload := ApiError "Failed to get instant context"
                                NoDetails |}
  ∧ "/tmp/segment.mp3" ∈ files after.1 ∧ "/tmp/sample.mp3" ∈ files after.1
  ∧ cache after.1 = cache boot.
Proof.
  exact (@instant_context_leaves_both_files_when_cloning_fails sample_env
           (failing_at 4 (JsOther None) sample_oracle) sample_instant_body
           "dQw4w9WgXcQ" "/tmp/segment.mp3" "/tmp/sample.mp3" (JsOther None)
           sample_transcript boot eq_refl ltac:(done) eq_refl
           (failing_at_resolves 0 4 (JsOther None) ltac:(done))
           eq_refl eq_refl eq_refl eq_refl).
Defined.

(** ** Cloning a voice *)

Section CloneVoice.

Context {env : Env}.

(** Without a cached voice and without a voice sample recorded for the
    video in the session store, [POST /clone-voice] answers 404, calls no
    cloning collaborator and writes to neither store. *)
Theorem clone_voice_needs_a_local_sample
    (oracle : Oracle) (body : gmap string JValue)
    (videoId speakerName sampleUrl : string) (w : World) :
  cloneVoiceSchema isURL body = inr (videoId, speakerName, sampleUrl) →
  as_truthy (cacheService.getVoiceId videoId (cache w)) = None →
  as_truthy (memoryService.getVideoData videoId (memory w)
             ≫= memoryService.voiceSamplePath) = None →
  resolves oracle 0 →
  let after := run oracle (POST_clone_voice body) w in
  after.2 = inr (sendError 404
                   ("Local voice sample path not found for video " ++ videoId
                    ++ ". Please prepare context again.") NoDetails)
  ∧ clone_calls after.1 = clone_calls w
  ∧ cache after.1 = cache w ∧ memory after.1 = memory w.
Proof.
  intros Hs Hmiss Hsample H0 after. subst after.
  unfold run, router, clone_voice, try_catch. rewrite Hs. cbn.
  destruct (H0 _ (CacheGetVideoData videoId)) as [x0 ->]. cbn.
  unfold cacheService.getVoiceId, cacheService.getVideoData in *.
  rewrite Hmiss. cbn. rewrite Hsample. cbn.
  split; [done|]. split; [calls_solve|done].
Qed.

(** A first [POST /clone-voice] that finds a voice sample clones the
    voice once and records it in the cache and in the session store; a
    second request for the same video, whatever speaker and sample it
    names, is answered from the cache with the same voice and clones
    nothing. *)
Theorem clone_voice_then_cache_hit
    (oracle oracle' : Oracle) (body body' : gmap string JValue)
    (videoId speakerName sampleUrl speakerName' sampleUrl' : string)
    (samplePath voiceId : string) (w : World) :
  cloneVoiceSchema isURL body = inr (videoId, speakerName, sampleUrl) →
  cloneVoiceSchema isURL body' = inr (videoId, speakerName', sampleUrl') →
  as_truthy (cacheService.getVoiceId videoId (cache w)) = None →
  as_truthy (memoryService.getVideoData videoId (memory w)
             ≫= memoryService.voiceSamplePath) = Some samplePath →
  voiceId ≠ "" →
  resolves oracle 0 →
  oracle _ (CloneVoice (JStr speakerName) samplePath) 1%nat
  = Resolved voiceId →
  resolves oracle 2 →
  resolves oracle' 0 →
  let first := run oracle (POST_clone_voice body) w in
  let second := run oracle' (POST_clone_voice body') first.1 in
  first.2 = inr (json (CloneVoiceResponse videoId voiceId
                         "Voice cloned successfully."))
  ∧ cacheService.getVoiceId videoId (cache first.1) = Some voiceId
  ∧ memoryService.getVoiceId videoId (memory first.1) = Some voiceId
  ∧ clone_calls first.1 = S (clone_calls w)
  ∧ second.2 = inr (json (CloneVoiceResponse videoId voiceId
                            "Voice already cloned for this video (from cache)."))
  ∧ clone_calls second.1 = clone_calls first.1.
Proof.
  intros Hs Hs' Hmiss Hsample Hne H0 H1 H2 H0' first second.
  pose (entry := {| cacheService.voiceId := Some voiceId;
                    cacheService.speakerName := Some speakerName;
                    cacheService.voiceSamplePath :=
                      cache w !! videoId ≫= cacheService.voiceSamplePath |}).
  assert (first = (with_memory
                     (memoryService.setVideoData videoId
                        {| memoryService.p_transcript := None;
                           memoryService.p_voiceId := Some voiceId;
                           memoryService.p_agentId := None;
                           memoryService.p_speakerName := Some speakerName;
                           memoryService.p_voiceSamplePath := None |}
                      ∘ memoryService.setVoiceId videoId voiceId)
                     (with_cache (cacheService.setVideoData videoId entry)
                        (logged (CacheSetVideoData videoId entry)
                           (logged (CloneVoice (JStr speakerName) samplePath)
                              (logged (CacheGetVideoData videoId) w)))),
                   inr (json (CloneVoiceResponse videoId voiceId
                                "Voice cloned successfully.")))) as Hfirst.
  { subst first entry. unfold run, router, clone_voice, try_catch.
    rewrite Hs. cbn.
    destruct (H0 _ (CacheGetVideoData videoId)) as [x0 ->]. cbn.
    unfold cacheService.getVoiceId, cacheService.getVideoData in *.
    rewrite Hmiss. cbn. rewrite Hsample. cbn. rewrite H1. cbn.
    match goal with
    | |- context [oracle _ (CacheSetVideoData ?k ?d) 2%nat] =>
        destruct (H2 _ (CacheSetVideoData k d)) as [x2 ->]
    end.
    cbn. done. }
  assert (cacheService.getVoiceId videoId (cache first.1) = Some voiceId)
    as Hhit.
  { rewrite Hfirst. cbn.
    unfold cacheService.getVoiceId, cacheService.setVideoData.
    by rewrite lookup_insert_eq. }
  split; [by rewrite Hfirst|]. split; [done|]. split; [|split].
  - rewrite Hfirst. cbn.
    unfold memoryService.getVoiceId, memoryService.setVideoData.
    by rewrite lookup_insert_eq.
  - rewrite Hfirst. calls_solve. rewrite ?length_app. simpl. lia.
  - subst second. unfold run, router, clone_voice, try_catch.
    rewrite Hs'. cbn.
    destruct (H0' _ (CacheGetVideoData videoId)) as [x0' ->]. cbn.
    unfold cacheService.getVoiceId, cacheService.getVideoData in *.
    rewrite Hhit. simpl. rewrite (as_truthy_Some _ Hne). cbn.
    split; [done|]. calls_solve.
Qed.

End CloneVoice.

Lemma clone_voice_needs_a_local_sample_witness :
  let after := @run sample_env sample_oracle
                 (POST_clone_voice sample_clone_body) boot in
  after.2 = inr (sendError 404
                   "Local voice sample path not found for video dQw4w9WgXcQ. Please prepare context again."
                   NoDetails)
  ∧ clone_calls after.1 = clone_calls boot
  ∧ cache after.1 = cache boot ∧ memory after.1 = memory boot.
Proof.
  exact (@clone_voice_needs_a_local_sample sample_env sample_oracle
           sample_clone_body "dQw4w9WgXcQ" "Rick" "https://cdn/sample.mp3"
           boot eq_refl eq_refl eq_refl (sample_oracle_resolves 0)).
Defined.

Lemma clone_voice_then_cache_hit_witness :
  let first := @run sample_env sample_oracle
                 (POST_clone_voice sample_clone_body) sample_prepared_world in
  let second := @run sample_env sample_oracle
                  (POST_clone_voice sample_clone_body) first.1 in
  first.2 = inr (json (CloneVoiceResponse "dQw4w9WgXcQ" "voice-1"
                         "Voice cloned successfully."))
  ∧ cacheService.getVoiceId "dQw4w9WgXcQ" (cache first.1) = Some "voice-1"
  ∧ memoryService.getVoiceId "dQw4w9WgXcQ" (memory first.1) = Some "voice-1"
  ∧ clone_calls first.1 = S (clone_calls sample_prepared_world)
  ∧ second.2 = inr (json (CloneVoiceResponse "dQw4w9WgXcQ" "voice-1"
                            "Voice already cloned for this video (from cache)."))
  ∧ clone_calls second.1 = clone_calls first.1.
Proof.
  exact (@clone_voice_then_cache_hit sample_env sample_oracle sample_oracle
           sample_clone_body sample_clone_body "dQw4w9WgXcQ" "Rick"
           "https://cdn/sample.mp3" "Rick" "https://cdn/sample.mp3"
           "/tmp/full-sample.mp3" "voice-1" sample_prepared_world
           eq_refl eq_refl eq_refl eq_refl ltac:(done)
           (sample_oracle_resolves 0) eq_refl (sample_oracle_resolves 2)
           (sample_oracle_resolves 0)).
Defined.

(** ** Context windows *)

Lemma cached_cacheContextWindow
    (videoId other : string) (t t' : Qc) (c : string)
    (m : gmap string memoryService.VideoData) :
  memoryService.getCachedContextWindow other t'
    (memoryService.cacheContextWindow videoId t c m)
  = if bool_decide (videoId = other ∧ t = t') then Some c
    else memoryService.getCachedContextWindow other t' m.
Proof.
  unfold memoryService.getCachedContextWindow,
    memoryService.cacheContextWindow, memoryService.getOrCreate.
  destruct (decide (videoId = other)) as [->|Hne].
  - rewrite lookup_insert_eq. simpl.
    destruct (decide (t = t')) as [->|Hne'].
    + rewrite lookup_insert_eq. by rewrite bool_decide_eq_true_2.
    + rewrite lookup_insert_ne by done.
      rewrite bool_decide_eq_false_2 by (intros [_ ?]; done).
      by destruct (m !! other).
  - rewrite lookup_insert_ne by done.
    by rewrite bool_decide_eq_false_2 by (intros [? _]; done).
Qed.

Section ContextWindows.

Context {env : Env}.

Local Arguments Nat.div : simpl never.

(** The helper behind [POST /create-agent] always returns: the middle
    index [floor (length / 2)] of a transcript that is not empty is within
    range, so reading [.start] never fails.  It leaves every store as it
    was, and it returns [undefined] exactly when the video has no
    transcript. *)
Theorem getContextWindowForVideo_returns (videoId : string) (w : World) :
  ∃ window, getContextWindowForVideo videoId w = (w, Ret window)
    ∧ (window = None
       ↔ memoryService.getTranscript videoId (memory w) = None).
Proof.
  unfold getContextWindowForVideo, bind. cbn.
  destruct (memoryService.getTranscript videoId (memory w))
    as [segments|] eqn:E.
  - case_bool_decide as Hlen; [eexists; split; [done|naive_solver]|].
    destruct (middle_exists segments) as [middle Hmid].
    { intros ->. done. }
    rewrite Hmid. eexists; split; [done|naive_solver].
  - eexists; split; [done|naive_solver].
Qed.

(** The first [POST /get-context-window] for a video and a paused time
    computes the window from the transcript and caches it under that
    video and time, leaving every other cached window as it was; asking
    again gives the same answer, and when the window is not empty the
    second request changes nothing at all. *)
Theorem context_window_is_cached
    (oracle oracle' : Oracle) (body : gmap string JValue)
    (videoId : string) (pausedTime : Qc) (segments : list TranscriptSegment)
    (w : World) :
  getContextWindowSchema body = inr (videoId, pausedTime) →
  as_truthy (memoryService.getCachedContextWindow videoId pausedTime
               (memory w)) = None →
  memoryService.getTranscript videoId (memory w) = Some segments →
  let contextWindow :=
    getContextWindow segments pausedTime MAX_CONTEXT_WINDOW_SECONDS in
  let first := run oracle (POST_get_context_window body) w in
  let second := run oracle' (POST_get_context_window body) first.1 in
  first.2 = inr (json (GetContextWindowResponse contextWindow))
  ∧ memoryService.getCachedContextWindow videoId pausedTime (memory first.1)
    = Some contextWindow
  ∧ (∀ other t, (other, t) ≠ (videoId, pausedTime) →
       memoryService.getCachedContextWindow other t (memory first.1)
       = memoryService.getCachedContextWindow other t (memory w))
  ∧ second.2 = first.2
  ∧ (contextWindow ≠ "" → second.1 = first.1).
Proof.
  intros Hs Hmiss Htr contextWindow first second.
  assert (first
          = (with_memory
               (memoryService.cacheContextWindow videoId pausedTime
                  contextWindow) w,
             inr (json (GetContextWindowResponse contextWindow))))
    as Hfirst.
  { subst first. unfold run, router, get_context_window, try_catch.
    rewrite Hs. cbn. rewrite Hmiss. cbn. rewrite Htr. done. }
  assert (memoryService.getCachedContextWindow videoId pausedTime
            (memory first.1) = Some contextWindow) as Hhit.
  { rewrite Hfirst. cbn. rewrite cached_cacheContextWindow.
    by rewrite bool_decide_eq_true_2. }
  split; [by rewrite Hfirst|]. split; [done|]. split.
  { intros other t Hne. rewrite Hfirst. cbn.
    rewrite cached_cacheContextWindow.
    rewrite bool_decide_eq_false_2; [done|]. intros [-> ->]. done. }
  subst second. unfold run, router, get_context_window, try_catch.
  rewrite Hs. cbn. rewrite Hhit. unfold as_truthy.
  case_bool_decide as Hempty.
  - cbn.
    assert (memoryService.getTranscript videoId (memory first.1)
            = Some segments) as ->.
    { rewrite Hfirst. cbn.
      unfold memoryService.getTranscript, memoryService.getVideoData,
        memoryService.cacheContextWindow, memoryService.getOrCreate in *.
      rewrite lookup_insert_eq. simpl. by destruct (memory w !! videoId). }
    fold contextWindow. rewrite Hfirst. cbn. done.
  - cbn. rewrite Hfirst. done.
Qed.

End ContextWindows.

Lemma context_window_is_cached_witness :
  let contextWindow :=
    buildContextWindow sample_transcript (seconds 12) (seconds 30) in
  let first := @run sample_env sample_oracle
                 (POST_get_context_window sample_window_body)
                 sample_prepared_world in
  let second := @run sample_env sample_oracle
                  (POST_get_context_window sample_window_body) first.1 in
  first.2 = inr (json (GetContextWindowResponse contextWindow))
  ∧ memoryService.getCachedContextWindow "dQw4w9WgXcQ" (seconds 12)
      (memory first.1) = Some contextWindow
  ∧ (∀ other t, (other, t) ≠ ("dQw4w9WgXcQ", seconds 12) →
       memoryService.getCachedContextWindow other t (memory first.1)
       = memoryService.getCachedContextWindow other t
           (memory sample_prepared_world))
  ∧ second.2 = first.2
  ∧ (contextWindow ≠ "" → second.1 = first.1).
Proof.
  exact (@context_window_is_cached sample_env sample_oracle sample_oracle
           sample_window_body "dQw4w9WgXcQ" (seconds 12) sample_transcript
           sample_prepared_world eq_refl eq_refl eq_refl).
Defined.

(** ** Agents, questions and speech *)

Section Agents.

Context {env : Env}.

Local Arguments Nat.div : simpl never.

(** [POST /create-agent] checks, in this order: both parameters are
    there (400), the video has a session record (400), its transcript is
    there and not empty (400), and, when no agent is recorded yet, a voice
    is (404).  Each refusal leaves the server as it was and calls
    nothing. *)
Theorem create_agent_prerequisites (body : gmap string JValue) (w : World) :
  let videoId := field body "videoId" in
  let speakerName := field body "speakerName" in
  let answer := router (POST_create_agent body) w in
  let bad (error : string) :=
    (w, Ret {| status := 400; payload := ApiError error NoDetails |}) in
  (truthy videoId = false ∨ truthy speakerName = false →
   answer = bad "Missing required parameters")
  ∧ (truthy videoId = true → truthy speakerName = true →
     (∀ key, videoId = JStr key →
        memoryService.getVideoData key (memory w) = None) →
     answer = bad "Video data not found. Please prepare context first.")
  ∧ (∀ key, truthy speakerName = true → videoId = JStr key → key ≠ "" →
       is_Some (memoryService.getVideoData key (memory w)) →
       (memoryService.getTranscript key (memory w) = None
        ∨ memoryService.getTranscript key (memory w) = Some []) →
       answer
       = bad "Transcript is missing or empty. Please prepare context first.")
  ∧ (∀ key segments,
       truthy speakerName = true → videoId = JStr key → key ≠ "" →
       memoryService.getTranscript key (memory w) = Some segments →
       segments ≠ [] →
       as_truthy (memoryService.getAgentId key (memory w)) = None →
       as_truthy (memoryService.getVoiceId key (memory w)) = None →
       answer
       = (w, Ret (sendError 404 "Voice not found. Please clone voice first."
                    NoDetails))).
Proof.
  intros videoId speakerName answer bad. subst answer bad. simpl.
  unfold create_agent, try_catch. fold videoId speakerName.
  repeat split.
  - intros [H|H]; rewrite H; [done|]. by rewrite orb_true_r.
  - intros Hv Hs Hnone. rewrite Hv, Hs. cbn.
    unfold memoryService_getVideoData.
    destruct videoId as [| | | |key| |] eqn:E; cbn; try done.
    by rewrite (Hnone key eq_refl).
  - intros key Hs -> Hne [record Hrec] Htr.
    rewrite Hs, (proj2 (truthy_JStr key) Hne). cbn.
    unfold memoryService_getVideoData. cbn. rewrite Hrec.
    unfold memoryService.getTranscript, memoryService.getVideoData in *.
    rewrite Hrec in Htr. simpl in Htr.
    by destruct Htr as [-> | ->].
  - intros key segments Hs -> Hne Htr Hnil Hag Hvo.
    rewrite Hs, (proj2 (truthy_JStr key) Hne). cbn.
    unfold memoryService_getVideoData. cbn.
    destruct (transcript_record _ _ _ Htr) as (record & Hrec & Htr').
    rewrite Hrec, Htr'. destruct segments; [done|]. cbn.
    rewrite Hag. cbn. rewrite Hvo. done.
Qed.

(** When the agent collaborator fails, [POST /create-agent] answers 500
    with the error's message and records no agent: the session store is as
    before, so the next request calls the collaborator again. *)
Theorem create_agent_failure_is_not_memoized
    (oracle : Oracle) (body : gmap string JValue) (videoId voiceId : string)
    (segments : list TranscriptSegment) (middle : TranscriptSegment)
    (e : Exn) (w : World) :
  field body "videoId" = JStr videoId → videoId ≠ "" →
  truthy (field body "speakerName") = true →
  memoryService.getTranscript videoId (memory w) = Some segments →
  segments !! (length segments / 2)%nat = Some middle →
  as_truthy (memoryService.getAgentId videoId (memory w)) = None →
  as_truthy (memoryService.getVoiceId videoId (memory w)) = Some voiceId →
  let contextWindow :=
    getContextWindow segments (start middle) MAX_CONTEXT_WINDOW_SECONDS in
  contextWindow ≠ "" →
  oracle _ (CreateAgent (field body "speakerName") voiceId contextWindow)
    1%nat = Rejected e →
  let after := run oracle (POST_create_agent body) w in
  after.2 = inr (sendError 500 "Failed to create agent"
                   (Detail (error_message e)))
  ∧ memory after.1 = memory w
  ∧ agent_calls after.1 = S (agent_calls w).
Proof.
  intros Hid Hne Hsp Htr Hmid Hag Hvo contextWindow Hcw Hrej after.
  subst after.
  unfold run, router, create_agent, try_catch. rewrite Hid, Hsp.
  rewrite (proj2 (truthy_JStr videoId) Hne). cbn.
  unfold memoryService_getVideoData. cbn.
  destruct (transcript_record _ _ _ Htr) as (record & Hrec & Htr').
  rewrite Hrec, Htr'. destruct segments as [|s0 segs]; [done|].
  cbn. rewrite Hag. cbn. rewrite Hvo. cbn.
  unfold await_async, try_catch, bind.
  rewrite (getContextWindowForVideo_middle _ _ _ _ Htr Hmid). cbn.
  fold contextWindow. rewrite (as_truthy_Some _ Hcw). cbn.
  rewrite Hrej. cbn. split; [done|]. split; [done|].
  calls_solve. rewrite ?length_app. simpl. lia.
Qed.

(** A question within the quota for a video that has an agent is
    relayed to that agent with the text as sent: one call, the counter of
    the video goes up by one whether or not the agent answers, and the
    answer is the agent's reply or 500 with its error. *)
Theorem stream_conversation_relays
    (oracle : Oracle) (body : gmap string JValue)
    (videoId text agentId : string) (w : World) :
  streamConversationSchema body = inr (videoId, text) →
  (memoryService.getQuestionCount videoId (memory w)
   < MAX_QUESTIONS_PER_VIDEO)%nat →
  as_truthy (memoryService.getAgentId videoId (memory w)) = Some agentId →
  let after := run oracle (POST_stream_conversation body) w in
  invocations after.1
  = (invocations w ++ [Invoke (StreamConversation agentId text)])%list
  ∧ memory after.1 = memoryService.incrementQuestionCount videoId (memory w)
  ∧ after.2
    = inr match oracle _ (StreamConversation agentId text) 0%nat with
          | Resolved response => json (RelayResponse response)
          | Rejected e =>
              sendError 500 "Failed to stream conversation"
                (Detail (error_message e))
          end.
Proof.
  intros Hs Hq Hag after. subst after.
  unfold run, router, stream_conversation, try_catch. rewrite Hs. cbn.
  rewrite bool_decide_eq_false_2 by lia. cbn.
  rewrite agentId_incrementQuestionCount, Hag. cbn.
  destruct (oracle _ _ 0%nat); cbn; done.
Qed.

(** [POST /speak] with a body its schema accepts calls the speech
    collaborator once with the voice and the text as sent, and answers
    with the audio it returned, typed [audio/mpeg] and with its length, or
    500 with the collaborator's error; it touches no store. *)
Theorem speak_answers_audio
    (oracle : Oracle) (body : gmap string JValue) (voiceId text : string)
    (w : World) :
  speakSchema body = inr (voiceId, text) →
  let after := run oracle (POST_speak body) w in
  after.1 = logged (GenerateSpeech voiceId text) w
  ∧ after.2
    = inr match oracle _ (GenerateSpeech voiceId text) 0%nat with
          | Resolved audioBuffer =>
              json (AudioResponse "audio/mpeg"
                      (pretty (length audioBuffer)) audioBuffer)
          | Rejected e =>
              sendError 500 "Failed to generate speech"
                (Detail (error_message e))
          end.
Proof.
  intros Hs after. subst after.
  unfold run, router, speak, try_catch. rewrite Hs. cbn.
  destruct (oracle _ _ 0%nat); cbn; done.
Qed.

End Agents.

(** On a server that has just started no video has a session record. *)
Lemma create_agent_prerequisites_witness :
  @router sample_env (POST_create_agent sample_agent_body) boot
  = (boot,
     Ret {| status := 400;
            payload :=
              ApiError "Video data not found. Please prepare context first."
                NoDetails |}).
Proof.
  exact (proj1 (proj2 (@create_agent_prerequisites sample_env
                         sample_agent_body boot))
           eq_refl eq_refl (λ key _, eq_refl)).
Defined.

Lemma create_agent_failure_is_not_memoized_witness :
  let after := @run sample_env
                 (failing_at 1 (JsError "quota exceeded") sample_oracle)
                 (POST_create_agent sample_agent_body)
                 sample_prepared_world in
  after.2 = inr (sendError 500 "Failed to create agent"
                   (Detail "quota exceeded"))
  ∧ memory after.1 = memory sample_prepared_world
  ∧ agent_calls after.1 = S (agent_calls sample_prepared_world).
Proof.
  exact (@create_agent_failure_is_not_memoized sample_env
           (failing_at 1 (JsError "quota exceeded") sample_oracle)
           sample_agent_body "dQw4w9WgXcQ" "voice-0" sample_transcript
           {| start := seconds 4; end_ := seconds 9;
              text := "Welcome back. " |}
           (JsError "quota exceeded") sample_prepared_world
           eq_refl ltac:(done) eq_refl eq_refl eq_refl eq_refl eq_refl
           ltac:(done) eq_refl).
Defined.

Lemma stream_conversation_relays_witness :
  let after := @run sample_env sample_oracle
                 (POST_stream_conversation sample_question_body)
                 sample_agent_world in
  invocations after.1
  = (invocations sample_agent_world
     ++ [Invoke (StreamConversation "agent-0" "What is this about?")])%list
  ∧ memory after.1
    = memoryService.incrementQuestionCount "dQw4w9WgXcQ"
        (memory sample_agent_world)
  ∧ after.2 = inr (json (RelayResponse (JStr "answer"))).
Proof.
  exact (@stream_conversation_relays sample_env sample_oracle
           sample_question_body "dQw4w9WgXcQ" "What is this about?"
           "agent-0" sample_agent_world eq_refl ltac:(vm_compute; lia)
           eq_refl).
Defined.

Lemma speak_answers_audio_witness :
  let after := @run sample_env sample_oracle (POST_speak sample_speak_body)
                 boot in
  after.1 = logged (GenerateSpeech "voice-0" "Hello there.") boot
  ∧ after.2 = inr (json (AudioResponse "audio/mpeg" "0" [])).
Proof.
  exact (@speak_answers_audio sample_env sample_oracle sample_speak_body
           "voice-0" "Hello there." boot eq_refl).
Defined.

(** ** Answers and unhandled rejections *)

Lemma catch_res_answers (r : Res Response) (h : Exn → M Response) :
  (∀ e w, ∃ a, h e w = (w, Ret a)) →
  ∀ w, res_answers (catch_res r h w).2.
Proof.
  intros Hh. induction r as [a|e|X c k IH] using Res_induction; intros w.
  - done.
  - simpl. destruct (Hh e w) as [a ->]. done.
  - simpl. intros o w'. specialize (IH o w'). destruct (k o w') as [w'' r'].
    simpl in IH. specialize (IH w''). by destruct (catch_res r' h w'').
Qed.

Lemma run_res_answers {env : Env} (oracle : Oracle) (r : Res Response) :
  res_answers r →
  ∀ t w, ∃ response, (run_res oracle t r w).2 = inr response.
Proof.
  induction r as [a|e|X c k IH] using Res_induction; intros Hr t w.
  - by eexists.
  - done.
  - simpl. destruct (perform c (oracle X c t) w) as [w1 reply].
    specialize (IH reply w1). simpl in Hr. specialize (Hr reply w1).
    destruct (k reply w1) as [w2 r']. by apply IH.
Qed.

Lemma perform_not_nullish {X} (c : Call X) (o : Reply X) (w : World) :
  o ≠ Rejected JsNullish → (perform c o w).2 ≠ Rejected JsNullish.
Proof. destruct c, o; simpl; congruence. Qed.

Lemma run_res_answers_when {env : Env} (oracle : Oracle)
    (r : Res Response) :
  (∀ X (c : Call X) t, oracle X c t ≠ Rejected JsNullish) →
  res_answers_when not_nullish r →
  ∀ t w, ∃ response, (run_res oracle t r w).2 = inr response.
Proof.
  intros Horacle.
  induction r as [a|e|X c k IH] using Res_induction; intros Hr t w.
  - by eexists.
  - done.
  - simpl.
    pose proof (perform_not_nullish c (oracle X c t) w (Horacle X c t))
      as Hreply.
    destruct (perform c (oracle X c t) w) as [w1 reply].
    specialize (IH reply w1). simpl in Hr. specialize (Hr reply w1 Hreply).
    destruct (k reply w1) as [w2 r']. by apply IH.
Qed.

Section Answers.

Context {env : Env}.

(** The seven routes whose [catch] reads the message behind
    [error instanceof Error] always answer: whatever the request,
    whatever the calls they await reply (any rejection, [undefined] and
    [null] included), and whatever the stores have become each time they
    resume, they end with a response and never with an unhandled
    rejection.  In particular a request served alone gets a response from
    every environment. *)
Theorem guarded_routes_always_answer (req : Request) (w : World) :
  guarded req = true →
  res_answers (router req w).2
  ∧ ∀ oracle, ∃ response, (run oracle req w).2 = inr response.
Proof.
  intros Hg.
  assert (res_answers (router req w).2) as Hr.
  { destruct req; try done; simpl;
      unfold clone_voice, get_context_window,
        build_conversation, create_agent, stream_conversation,
        streaming_url, speak, try_catch;
      match goal with
      | |- res_answers (let (_, _) := ?body w in _).2 =>
          destruct (body w) as [w' r]
      end;
      apply catch_res_answers; intros e w0; by eexists. }
  split; [done|]. intros oracle. unfold run.
  destruct (router req w) as [w' r]. by apply run_res_answers.
Qed.

(** [POST /instant-context] answers as long as nothing that reaches its
    [catch] is [undefined] or [null]: no call is rejected with one, and
    [extractVideoId] throws none.  When a call is rejected with
    [undefined] or [null], the [catch] throws while it reads
    [error.message], and the request gets no response: so for the first
    call, the read of the cache. *)
Theorem instant_context_answers_unless_nullish
    (body : gmap string JValue) (w : World) :
  (extractVideoId (field body "videoUrl") ≠ inl JsNullish →
   res_answers_when not_nullish (router (POST_instant_context body) w).2
   ∧ ∀ oracle : Oracle,
       (∀ X (c : Call X) t, oracle X c t ≠ Rejected JsNullish) →
       ∃ response, (run oracle (POST_instant_context body) w).2
                   = inr response)
  ∧ (∀ (oracle : Oracle) videoId,
       extractVideoId (field body "videoUrl") = inr (Some videoId) →
       videoId ≠ "" →
       oracle _ (CacheGetVoiceId videoId) 0%nat = Rejected JsNullish →
       (run oracle (POST_instant_context body) w).2
       = inl (JsError
                "Cannot read properties of undefined (reading 'message')")).
Proof.
  split.
  - intros Hx.
    assert (res_answers_when not_nullish
              (router (POST_instant_context body) w).2) as Hr.
    { simpl. unfold instant_context, try_catch, youtubeService_extractVideoId.
      destruct (extractVideoId _) as [e|videoId]; cbn.
      { by destruct e. }
      destruct (as_truthy videoId); cbn; [|done].
      repeat
        (intros [?|err] ? ?; cbn;
         [|destruct err; cbn;
           first [ done
                 | match goal with
                   | H : not_nullish _ _ (Rejected JsNullish) |- _ =>
                       by destruct H
                   end ]];
         repeat match goal with
                | |- context [match as_truthy ?v with _ => _ end] =>
                    destruct (as_truthy v); cbn
                end);
        done. }
    split; [done|]. intros oracle Horacle. unfold run.
    destruct (router (POST_instant_context body) w) as [w' r].
    by apply run_res_answers_when.
  - intros oracle videoId Hx Hne Hrej.
    unfold run, router, instant_context, try_catch,
      youtubeService_extractVideoId.
    rewrite Hx. cbn. rewrite (as_truthy_Some _ Hne). cbn.
    rewrite Hrej. done.
Qed.

(** The two routes of the job queue have no [try]: when the queue
    rejects their first call, [POST /prepare-context] and
    [GET /status/:jobId] end in an unhandled rejection and send no
    response. *)
Theorem queue_failure_is_unhandled
    (oracle : Oracle) (e : Exn) (w : World) :
  (∀ X (c : Call X), oracle X c 0%nat = Rejected e) →
  (∀ body videoId,
     extractVideoId (field body "videoUrl") = inr (Some videoId) →
     videoId ≠ "" →
     (run oracle (POST_prepare_context body) w).2 = inl e)
  ∧ (∀ jobId, (run oracle (GET_status jobId) w).2 = inl e).
Proof.
  intros Hrej. split.
  - intros body videoId Hx Hne.
    unfold run, router, prepare_context, youtubeService_extractVideoId.
    rewrite Hx. cbn. rewrite (as_truthy_Some _ Hne). cbn.
    rewrite Hrej. done.
  - intros jobId. unfold run, router, job_status. cbn. rewrite Hrej. done.
Qed.

(** [POST /get-context-window], [POST /build-conversation] and
    [GET /streaming-url/:agentId] await nothing: they answer in the turn
    in which the request arrives, call no collaborator, and touch neither
    the cache, the queue nor the disk; an answer other than 200 leaves the
    session store as it was, too. *)
Theorem immediate_routes_answer_at_once (req : Request) (w : World) :
  immediate req = true →
  ∃ response,
    (router req w).2 = Ret response
    ∧ cache (router req w).1 = cache w
    ∧ queue (router req w).1 = queue w
    ∧ files (router req w).1 = files w
    ∧ invocations (router req w).1 = invocations w
    ∧ (status response ≠ 200%nat → (router req w).1 = w).
Proof.
  intros Hi. destruct req as [| | | |body|body| | |agentId|]; try done; simpl.
  - unfold get_context_window, try_catch.
    destruct (getContextWindowSchema body) as [errors|[videoId pausedTime]];
      cbn; [by eexists|].
    destruct (as_truthy _); cbn; [by eexists|].
    destruct (memoryService.getTranscript _ _); cbn; by eexists.
  - unfold build_conversation, try_catch.
    destruct (buildConversationSchema body)
      as [errors|[[[[videoId voiceId] speakerName] contextWindow] question]];
      cbn; [by eexists|].
    case_bool_decide; cbn; by eexists.
  - unfold streaming_url, try_catch. case_bool_decide; cbn; by eexists.
Qed.

End Answers.

Lemma guarded_routes_always_answer_witness :
  res_answers (@router sample_env (POST_create_agent sample_agent_body)
                 sample_prepared_world).2
  ∧ ∀ oracle, ∃ response,
      (@run sample_env oracle (POST_create_agent sample_agent_body)
         sample_prepared_world).2 = inr response.
Proof.
  exact (@guarded_routes_always_answer sample_env
           (POST_create_agent sample_agent_body) sample_prepared_world
           eq_refl).
Defined.

(** The read of the cache is rejected with [undefined]: the [catch] of
    [POST /instant-context] throws, and no response is sent. *)
Lemma instant_context_answers_unless_nullish_witness :
  (@run sample_env (failing_at 0 JsNullish sample_oracle)
     (POST_instant_context sample_instant_body) boot).2
  = inl (JsError "Cannot read properties of undefined (reading 'message')").
Proof.
  exact (proj2 (@instant_context_answers_unless_nullish sample_env
                  sample_instant_body boot)
           (failing_at 0 JsNullish sample_oracle) "dQw4w9WgXcQ" eq_refl
           ltac:(done) eq_refl).
Defined.

Lemma queue_failure_is_unhandled_witness :
  let oracle := failing_at 0 (JsError "ECONNREFUSED") sample_oracle in
  (@run sample_env oracle (POST_prepare_context sample_instant_body) boot).2
  = inl (JsError "ECONNREFUSED")
  ∧ (@run sample_env oracle (GET_status "1") boot).2
    = inl (JsError "ECONNREFUSED").
Proof.
  exact (let H := @queue_failure_is_unhandled sample_env
                    (failing_at 0 (JsError "ECONNREFUSED") sample_oracle)
                    (JsError "ECONNREFUSED") boot (λ X c, eq_refl) in
         conj (proj1 H sample_instant_body "dQw4w9WgXcQ" eq_refl
                 ltac:(done))
              (proj2 H "1")).
Defined.

Lemma immediate_routes_answer_at_once_witness :
  let req := GET_streaming_url "agent-0" in
  ∃ response,
    (@router sample_env req boot).2 = Ret response
    ∧ cache (@router sample_env req boot).1 = cache boot
    ∧ queue (@router sample_env req boot).1 = queue boot
    ∧ files (@router sample_env req boot).1 = files boot
    ∧ invocations (@router sample_env req boot).1 = invocations boot
    ∧ (status response ≠ 200%nat → (@router sample_env req boot).1 = boot).
Proof.
  exact (@immediate_routes_answer_at_once sample_env
           (GET_streaming_url "agent-0") boot eq_refl).
Defined.

(** ** What the routes leave in the session store *)

Lemma steady_refl (w : World) : steady w w.
Proof. split; [by intros v|by intros H]. Qed.

Lemma steady_trans (w1 w2 w3 : World) :
  steady w1 w2 → steady w2 w3 → steady w1 w3.
Proof.
  intros [Ht Hw] [Ht' Hw']. split.
  - intros v. by rewrite Ht', Ht.
  - intros H. by apply Hw', Hw.
Qed.

Lemma steady_memory (w w' : World) : memory w' = memory w → steady w w'.
Proof. intros H. split; [intros v|intros Hw]; by rewrite H. Qed.

Lemma steady_setVideoData (videoId : string) (p : memoryService.Partial)
    (w : World) :
  memoryService.p_transcript p = None →
  steady w (with_memory (memoryService.setVideoData videoId p) w).
Proof.
  intros Hp. split.
  - intros v. cbn.
    unfold memoryService.getTranscript, memoryService.setVideoData,
      memoryService.update, memoryService.getOrCreate.
    destruct (decide (videoId = v)) as [->|Hne].
    + rewrite lookup_insert_eq. simpl. rewrite Hp. simpl.
      by destruct (memory w !! v).
    + by rewrite lookup_insert_ne.
  - intros Hw v r. cbn.
    unfold memoryService.setVideoData, memoryService.update,
      memoryService.getOrCreate.
    destruct (decide (videoId = v)) as [->|Hne].
    + rewrite lookup_insert_eq. intros [= <-]. simpl. rewrite Hp. simpl.
      destruct (memory w !! v) as [r0|] eqn:E; simpl; [|done].
      by apply (Hw v).
    + rewrite lookup_insert_ne by done. apply Hw.
Qed.

Lemma steady_incrementQuestionCount (videoId : string) (w : World) :
  steady w (with_memory (memoryService.incrementQuestionCount videoId) w).
Proof.
  split.
  - intros v. cbn.
    unfold memoryService.getTranscript,
      memoryService.incrementQuestionCount, memoryService.getOrCreate.
    cbv zeta.
    destruct (decide (videoId = v)) as [->|Hne].
    + rewrite lookup_insert_eq. simpl. by destruct (memory w !! v).
    + by rewrite lookup_insert_ne.
  - intros Hw v r. cbn.
    unfold memoryService.incrementQuestionCount, memoryService.getOrCreate.
    cbv zeta.
    destruct (decide (videoId = v)) as [->|Hne].
    + rewrite lookup_insert_eq. intros [= <-]. simpl.
      destruct (memory w !! v) as [r0|] eqn:E; simpl; [|done].
      by apply (Hw v).
    + rewrite lookup_insert_ne by done. apply Hw.
Qed.

Lemma steady_cacheContextWindow (videoId : string) (pausedTime : Qc)
    (c : string) (w : World) :
  is_Some (memoryService.getTranscript videoId (memory w)) →
  steady w (with_memory
              (memoryService.cacheContextWindow videoId pausedTime c) w).
Proof.
  intros [segments Htr]. split.
  - intros v. cbn.
    unfold memoryService.getTranscript, memoryService.cacheContextWindow,
      memoryService.getOrCreate.
    cbv zeta.
    destruct (decide (videoId = v)) as [->|Hne].
    + rewrite lookup_insert_eq. simpl. by destruct (memory w !! v).
    + by rewrite lookup_insert_ne.
  - intros Hw v r. cbn.
    unfold memoryService.cacheContextWindow, memoryService.getOrCreate,
      memoryService.getTranscript in *.
    cbv zeta.
    destruct (decide (videoId = v)) as [->|Hne].
    + rewrite lookup_insert_eq. intros [= <-]. simpl.
      destruct (memory w !! v) as [r0|] eqn:E; simpl in *; congruence.
    + rewrite lookup_insert_ne by done. apply Hw.
Qed.

Ltac steady_side :=
  try done;
  try first
    [ exact steady_refl | exact steady_trans
    | intros; apply steady_memory; done
    | intros; apply steady_setVideoData; done
    | intros; apply steady_incrementQuestionCount ].

Section SessionStore.

Context {env : Env}.

Local Arguments Nat.div : simpl never.

Lemma router_steady (req : Request) :
  m_safe steady any_call any_reply (router req).
Proof.
  destruct req as [body|jobId|body|body|body|body|body|body|agentId|body];
    simpl.
  - unfold prepare_context, youtubeService_extractVideoId.
    safe_go steady_side.
  - unfold job_status. safe_go steady_side.
  - unfold instant_context, youtubeService_extractVideoId.
    safe_go steady_side.
  - unfold clone_voice. safe_go steady_side.
  - intros w. unfold get_context_window, try_catch.
    destruct (getContextWindowSchema body) as [errors|[videoId pausedTime]];
      cbn; [split; [apply steady_refl|done]|].
    destruct (as_truthy _); cbn; [split; [apply steady_refl|done]|].
    destruct (memoryService.getTranscript _ _) eqn:Htr; cbn;
      [|split; [apply steady_refl|done]].
    split; [|done]. apply steady_cacheContextWindow. by rewrite Htr.
  - unfold build_conversation. safe_go steady_side.
  - unfold create_agent, memoryService_getVideoData,
      getContextWindowForVideo.
    safe_go steady_side.
  - unfold stream_conversation. safe_go steady_side.
  - unfold streaming_url. safe_go steady_side.
  - unfold speak. safe_go steady_side.
Qed.

(** Whatever requests arrive and however their handlers interleave, the
    routes store no transcript and change none: the transcripts of the
    session store are those it started with.  And a store in which only
    videos with a transcript have windows cached stays so: the routes
    cache a window only in the turn in which they found the transcript. *)
Theorem routes_keep_the_transcripts
    (oracle : Oracle) (w0 : World) (schedule : list Event) :
  let w := world (exec oracle (idle w0) schedule) in
  same_transcripts w0 w
  ∧ (memory_wf (memory w0) → memory_wf (memory w)).
Proof.
  intros w. subst w.
  apply (exec_threads_safe steady any_call any_reply (steady w0)).
  - intros req w. pose proof (router_steady req w) as H.
    destruct (router req w). simpl. tauto.
  - intros req w Hw. pose proof (router_steady req w) as H.
    destruct (router req w). simpl. eapply steady_trans; [done|tauto].
  - intros w w' H Hw. by eapply steady_trans.
  - intros X c o w _ Hw. split; [|done].
    eapply steady_trans; [done|]. apply steady_memory, perform_memory.
  - split; [apply steady_refl|]. simpl. done.
Qed.

End SessionStore.

(** ** Jobs *)

Lemma queue_getJob_fresh (q : list Job) (name : string) (data : JobData) :
  queue_wf q →
  let job := queue_add name data q in
  queue_getJob (id job) (q ++ [job])%list = Some job.
Proof.
  intros Hwf job. unfold queue_getJob.
  assert (list_find (λ j, id j = id job) q = None) as Hnone.
  { apply list_find_None, Forall_lookup. intros i j Hj Hid.
    pose proof (lookup_lt_Some _ _ _ Hj) as Hlt.
    rewrite (Hwf i j Hj) in Hid. subst job. simpl in Hid.
    apply (inj pretty) in Hid. lia. }
  rewrite (list_find_app_r _ _ _ Hnone). simpl.
  rewrite decide_True by done. done.
Qed.

Lemma queue_wf_add (q : list Job) (name : string) (data : JobData) :
  queue_wf q → queue_wf (q ++ [queue_add name data q])%list.
Proof.
  intros Hwf i job Hjob. apply lookup_app_Some in Hjob as [Hjob|[Hle Hjob]].
  - by apply Hwf.
  - apply list_lookup_singleton_Some in Hjob as [Hi <-]. simpl.
    f_equal. lia.
Qed.

Lemma boot_queue_wf : queue_wf (queue boot).
Proof. intros i job H. done. Qed.

Section Jobs.

Context {env : Env}.

(** The id [POST /prepare-context] answers with is one
    [GET /status/:jobId] finds: with the queue answering, and its jobs
    carrying the ids it issued, the status of the job just accepted is
    200 with that id, the state [queued], no progress and no return value
    yet. *)
Theorem accepted_job_is_found
    (oracle oracle' : Oracle) (body : gmap string JValue) (videoId : string)
    (w : World) :
  extractVideoId (field body "videoUrl") = inr (Some videoId) →
  videoId ≠ "" →
  queue_wf (queue w) →
  resolves oracle 0 → resolves oracle' 0 → resolves oracle' 1 →
  let first := run oracle (POST_prepare_context body) w in
  ∃ jobId,
    first.2
    = inr {| status := 202;
             payload :=
               JobAccepted "Video processing has started in the background."
                 jobId |}
    ∧ queue_wf (queue first.1)
    ∧ (run oracle' (GET_status jobId) first.1).2
      = inr (json (JobStatus jobId queued 0 JUndefined)).
Proof.
  intros Hx Hne Hwf H0 H0' H1' first.
  set (data := {| job_videoId := videoId;
                  job_videoUrl := field body "videoUrl";
                  job_speakerName :=
                    if truthy (field body "speakerName")
                    then field body "speakerName"
                    else JStr ("Speaker for " ++ videoId) |}).
  set (job := queue_add "process-video" data (queue w)).
  assert (first = (with_queue (λ q, (q ++ [job])%list)
                     (logged (QueueAdd "process-video" data) w),
                   inr {| status := 202;
                          payload :=
                            JobAccepted
                              "Video processing has started in the background."
                              (id job) |})) as Hfirst.
  { subst first. unfold run, router, prepare_context,
      youtubeService_extractVideoId.
    rewrite Hx. cbn. rewrite (as_truthy_Some _ Hne). cbn. fold data.
    destruct (H0 _ (QueueAdd "process-video" data)) as [x0 ->]. cbn. done. }
  pose proof (queue_getJob_fresh (queue w) "process-video" data Hwf)
    as Hfound.
  cbv zeta in Hfound. fold job in Hfound.
  assert (state job = queued ∧ progress job = 0%nat
          ∧ returnvalue job = JUndefined)
    as (Hstate & Hprogress & Hreturn) by done.
  exists (id job). rewrite Hfirst. cbn [fst snd].
  split; [done|]. split; [by apply queue_wf_add|].
  clearbody job. unfold run, router, job_status. cbn.
  destruct (H0' _ (QueueGetJob (id job))) as [x0' ->]. cbn.
  unfold queue_getJob in Hfound. rewrite Hfound. cbn.
  destruct (H1' _ (JobGetState job)) as [x1' ->]. cbn.
  rewrite Hfound. cbn. by rewrite Hstate, Hprogress, Hreturn.
Qed.

End Jobs.

Lemma accepted_job_is_found_witness :
  let first := @run sample_env sample_oracle
                 (POST_prepare_context sample_instant_body) boot in
  ∃ jobId,
    first.2
    = inr {| status := 202;
             payload :=
               JobAccepted "Video processing has started in the background."
                 jobId |}
    ∧ queue_wf (queue first.1)
    ∧ (@run sample_env sample_oracle (GET_status jobId) first.1).2
      = inr (json (JobStatus jobId queued 0 JUndefined)).
Proof.
  exact (@accepted_job_is_found sample_env sample_oracle sample_oracle
           sample_instant_body "dQw4w9WgXcQ" boot eq_refl ltac:(done)
           boot_queue_wf (sample_oracle_resolves 0)
           (sample_oracle_resolves 0) (sample_oracle_resolves 1)).
Defined.

(** ** Agents *)

Section ServerSafetyFrom.

Context {env : Env}.
Variable R : World → World → Prop.
Variable C : Invocation → Prop.
Variable A : ∀ X, Call X → Reply X → Prop.
Variable I : World → Prop.

(** As before, except that what is left of a handler need only be safe
    when the request arrives in a world that satisfies [I]. *)
Hypothesis router_safe : ∀ req w, I w → res_safe R C A (router req w).2.
Hypothesis router_I : ∀ req w, I w → I (router req w).1.
Hypothesis R_I : ∀ w w', R w w' → I w → I w'.
Hypothesis perform_I :
  ∀ X (c : Call X) o w, C (Invoke c) → I w →
    I (perform c o w).1 ∧ A X c (perform c o w).2.

Lemma step_threads_safe_from (oracle : Oracle) (s : Server) (ev : Event) :
  I (world s) ∧ Forall (thread_safe R C A) (threads s) →
  I (world (step oracle s ev))
  ∧ Forall (thread_safe R C A) (threads (step oracle s ev)).
Proof.
  intros [Hi Hs]. destruct ev as [req|tid|tid]; simpl.
  - pose proof (router_safe req (world s) Hi) as Hr.
    pose proof (router_I req (world s) Hi) as Hi'.
    destruct (router req (world s)) as [w' r].
    simpl. split; [done|]. apply Forall_app. split; [done|].
    apply Forall_singleton. by apply thread_of_safe.
  - destruct (threads s !! tid) as [t|] eqn:E; [|done].
    destruct t as [X c k|rest|response|error]; try done.
    eapply Forall_lookup_1 in E; [|done]. simpl in E. destruct E as [Hc Hk].
    pose proof (perform_I X c (oracle X c (clock s)) (world s) Hc Hi) as Hp.
    destruct (perform c (oracle X c (clock s)) (world s)) as [w' reply].
    simpl in *. destruct Hp as [Hi' Ha]. split; [done|].
    apply Forall_insert; [done|]. simpl. by apply Hk.
  - destruct (threads s !! tid) as [t|] eqn:E; [|done].
    destruct t as [X c k|rest|response|error]; try done.
    eapply Forall_lookup_1 in E; [|done]. simpl in E. specialize (E (world s)).
    destruct (rest (world s)) as [w' r]. simpl. destruct E as [Hr Hsafe].
    split; [by eapply R_I|].
    apply Forall_insert; [done|]. by apply thread_of_safe.
Qed.

Lemma exec_threads_safe_from (oracle : Oracle) (s : Server) schedule :
  I (world s) ∧ Forall (thread_safe R C A) (threads s) →
  I (world (exec oracle s schedule))
  ∧ Forall (thread_safe R C A) (threads (exec oracle s schedule)).
Proof.
  intros Hs. induction schedule as [|ev schedule IH] using rev_ind.
  - done.
  - rewrite exec_snoc. by apply step_threads_safe_from.
Qed.

End ServerSafetyFrom.

Lemma agent_kept_refl videoId w : agent_kept videoId w w.
Proof. done. Qed.

Lemma agent_kept_trans videoId w1 w2 w3 :
  agent_kept videoId w1 w2 → agent_kept videoId w2 w3 →
  agent_kept videoId w1 w3.
Proof. intros [H1 H2] [H3 H4]. split; congruence. Qed.

Lemma agent_kept_memory videoId w w' :
  memory w' = memory w → agent_kept videoId w w'.
Proof. intros H. unfold agent_kept. by rewrite H. Qed.

Lemma agent_kept_setVideoData videoId other p w :
  memoryService.p_transcript p = None →
  (memoryService.p_agentId p = None ∨ other ≠ videoId) →
  agent_kept videoId w (with_memory (memoryService.setVideoData other p) w).
Proof.
  intros Hp Ha. split; cbn.
  - unfold memoryService.getAgentId, memoryService.setVideoData,
      memoryService.update, memoryService.getOrCreate.
    destruct (decide (other = videoId)) as [->|Hne].
    + destruct Ha as [Ha|Ha]; [|done].
      rewrite lookup_insert_eq. simpl. rewrite Ha. simpl.
      by destruct (memory w !! videoId).
    + by rewrite lookup_insert_ne.
  - apply (proj1 (steady_setVideoData other p w Hp)).
Qed.

Lemma agent_kept_incrementQuestionCount videoId other w :
  agent_kept videoId w
    (with_memory (memoryService.incrementQuestionCount other) w).
Proof.
  split; cbn.
  - apply agentId_incrementQuestionCount.
  - apply (proj1 (steady_incrementQuestionCount other w)).
Qed.

Lemma agent_kept_cacheContextWindow videoId other t c w :
  agent_kept videoId w
    (with_memory (memoryService.cacheContextWindow other t c) w).
Proof.
  split; cbn;
    unfold memoryService.getAgentId, memoryService.getTranscript,
      memoryService.cacheContextWindow, memoryService.getOrCreate;
    cbv zeta;
    (destruct (decide (other = videoId)) as [->|Hne];
     [rewrite lookup_insert_eq; simpl; by destruct (memory w !! videoId)
     |by rewrite lookup_insert_ne]).
Qed.

Ltac agent_side :=
  try done;
  try first
    [ exact (agent_kept_refl _) | exact (agent_kept_trans _)
    | intros; apply agent_kept_memory; done
    | intros; apply agent_kept_setVideoData; [done|by left]
    | intros; apply agent_kept_setVideoData; [done|right; congruence]
    | intros; apply agent_kept_incrementQuestionCount
    | intros; apply agent_kept_cacheContextWindow ].

Section Memoized.

Context {env : Env}.
Variable videoId : string.

Local Arguments Nat.div : simpl never.

Lemma router_agent_kept (req : Request) :
  (∀ body, req = POST_create_agent body →
     field body "videoId" ≠ JStr videoId) →
  m_safe (agent_kept videoId) any_call any_reply (router req).
Proof.
  intros Hother.
  destruct req as [body|jobId|body|body|body|body|body|body|agentId|body];
    simpl.
  - unfold prepare_context, youtubeService_extractVideoId.
    safe_go agent_side.
  - unfold job_status. safe_go agent_side.
  - unfold instant_context, youtubeService_extractVideoId.
    safe_go agent_side.
  - unfold clone_voice. safe_go agent_side.
  - unfold get_context_window. safe_go agent_side.
  - unfold build_conversation. safe_go agent_side.
  - specialize (Hother body eq_refl).
    unfold create_agent, memoryService_getVideoData,
      getContextWindowForVideo.
    safe_go agent_side.
  - unfold stream_conversation. safe_go agent_side.
  - unfold streaming_url. safe_go agent_side.
  - unfold speak. safe_go agent_side.
Qed.

(** A request for the agent of the video that arrives while the store
    holds one is answered in the same turn. *)
Lemma create_agent_memoized_now (body : gmap string JValue)
    (agentId : string) (segments : list TranscriptSegment) (w : World) :
  field body "videoId" = JStr videoId →
  as_truthy (memoryService.getAgentId videoId (memory w)) = Some agentId →
  memoryService.getTranscript videoId (memory w) = Some segments →
  ∃ response,
    router (POST_create_agent body) w = (w, Ret response)
    ∧ (videoId ≠ "" → truthy (field body "speakerName") = true →
       segments ≠ [] →
       response = json (AgentResponse agentId)).
Proof.
  intros Hid Hag Htr. simpl. unfold create_agent, try_catch. rewrite Hid.
  destruct (truthy (JStr videoId)) eqn:Hv; cbn.
  2:{ eexists. split; [done|]. intros Hne.
      apply truthy_JStr in Hne. congruence. }
  destruct (truthy (field body "speakerName")) eqn:Hsp; cbn; [|by eexists].
  unfold memoryService_getVideoData. cbn.
  destruct (transcript_record _ _ _ Htr) as (record & Hrec & Htr').
  rewrite Hrec, Htr'. destruct segments as [|s0 segs]; cbn; [by eexists|].
  rewrite Hag. by eexists.
Qed.

Section Invariant.

Variable agentId : string.
Variable segments : list TranscriptSegment.

Let holds (w : World) : Prop :=
  as_truthy (memoryService.getAgentId videoId (memory w)) = Some agentId
  ∧ memoryService.getTranscript videoId (memory w) = Some segments.

Lemma holds_kept (w w' : World) :
  agent_kept videoId w w' → holds w → holds w'.
Proof. intros [Ha Ht] [Hag Htr]. split; congruence. Qed.

Lemma router_memoized (req : Request) (w : World) :
  holds w →
  agent_kept videoId w (router req w).1
  ∧ res_safe (agent_kept videoId) any_call any_reply (router req w).2.
Proof.
  intros [Hag Htr].
  assert ((∃ body, req = POST_create_agent body
                   ∧ field body "videoId" = JStr videoId)
          ∨ ∀ body, req = POST_create_agent body →
                    field body "videoId" ≠ JStr videoId) as [Hsame|Hother].
  { destruct req as [| | | | | |body| | |]; try by right.
    destruct (decide (field body "videoId" = JStr videoId)) as [Hid|Hid].
    - left. by exists body.
    - right. by intros ? [= <-]. }
  - destruct Hsame as (body & -> & Hid).
    destruct (create_agent_memoized_now body agentId segments w Hid Hag Htr)
      as (response & -> & _).
    done.
  - pose proof (router_agent_kept req Hother w) as Hsafe.
    by destruct (router req w).
Qed.

Lemma exec_memoized (oracle : Oracle) (s : Server) (schedule : list Event) :
  holds (world s) →
  Forall (thread_safe (agent_kept videoId) any_call any_reply) (threads s) →
  holds (world (exec oracle s schedule)).
Proof.
  intros Hw Hs.
  apply (exec_threads_safe_from (agent_kept videoId) any_call any_reply holds);
    [| | | |done].
  - intros req w Hold. by apply router_memoized.
  - intros req w Hold. eapply holds_kept; [|done].
    by apply router_memoized.
  - intros w w' Hk Hold. by eapply holds_kept.
  - intros X c o w _ Hold. split; [|done].
    eapply holds_kept; [|done]. apply agent_kept_memory, perform_memory.
Qed.

End Invariant.

(** Once stored, and with nothing in flight that would write it, the
    [agentId] stays and is what every later request is answered with. *)
Lemma memoized_from (oracle : Oracle) (s : Server) (agentId : string)
    (segments : list TranscriptSegment) (schedule : list Event) :
  videoId ≠ "" →
  as_truthy (memoryService.getAgentId videoId (memory (world s)))
  = Some agentId →
  memoryService.getTranscript videoId (memory (world s)) = Some segments →
  segments ≠ [] →
  Forall (thread_safe (agent_kept videoId) any_call any_reply) (threads s) →
  let later := exec oracle s schedule in
  memoryService.getAgentId videoId (memory (world later))
  = memoryService.getAgentId videoId (memory (world s))
  ∧ ∀ body,
      field body "videoId" = JStr videoId →
      truthy (field body "speakerName") = true →
      step oracle later (Arrive (POST_create_agent body))
      = {| world := world later;
           threads :=
             threads later ++ [Finished (json (AgentResponse agentId))];
           clock := S (clock later) |}.
Proof.
  intros Hne Hag Htr Hnil Hs later.
  pose proof (exec_memoized agentId segments oracle s schedule
                (conj Hag Htr) Hs) as [Hag' Htr'].
  fold later in Hag', Htr'. split.
  - apply as_truthy_inv in Hag as [-> _].
    by apply as_truthy_inv in Hag' as [-> _].
  - intros body Hid Hsp. unfold step.
    destruct (create_agent_memoized_now body agentId segments
                (world later) Hid Hag' Htr') as (response & -> & Hresp).
    by rewrite (Hresp Hne Hsp Hnil).
Qed.

(** C6 (amended).  For a video with a transcript that is not empty.
    From any moment at which the session store holds a (non-empty)
    [agentId] for the video and no request in flight will still write the
    video's [agentId] or transcript -- in particular when no request is in
    flight --, whatever requests arrive later and however their handlers
    interleave, the stored [agentId] never changes and every
    [POST /create-agent] for the video (with a speaker name) is answered
    in the turn in which it arrives with that [agentId]; the server state
    is as before, so the collaborator is not called.  And a
    [POST /create-agent], served alone, that finds no [agentId] and whose
    collaborator call resolves, stores the new [agentId] and answers with
    it, having called the collaborator once; when that [agentId] is not
    empty, the first part holds from there on. *)
Theorem create_agent_is_memoized (oracle : Oracle) :
  videoId ≠ "" →
  (∀ (s : Server) agentId segments schedule,
     as_truthy (memoryService.getAgentId videoId (memory (world s)))
     = Some agentId →
     memoryService.getTranscript videoId (memory (world s))
     = Some segments →
     segments ≠ [] →
     Forall (thread_safe (agent_kept videoId) any_call any_reply)
       (threads s) →
     let later := exec oracle s schedule in
     memoryService.getAgentId videoId (memory (world later))
     = memoryService.getAgentId videoId (memory (world s))
     ∧ ∀ body,
         field body "videoId" = JStr videoId →
         truthy (field body "speakerName") = true →
         step oracle later (Arrive (POST_create_agent body))
         = {| world := world later;
              threads :=
                threads later ++ [Finished (json (AgentResponse agentId))];
              clock := S (clock later) |})
  ∧ (∀ (w : World) body voiceId segments middle agentId,
       field body "videoId" = JStr videoId →
       truthy (field body "speakerName") = true →
       memoryService.getTranscript videoId (memory w) = Some segments →
       segments !! (length segments / 2)%nat = Some middle →
       as_truthy (memoryService.getAgentId videoId (memory w)) = None →
       as_truthy (memoryService.getVoiceId videoId (memory w))
       = Some voiceId →
       let contextWindow :=
         getContextWindow segments (start middle)
           MAX_CONTEXT_WINDOW_SECONDS in
       contextWindow ≠ "" →
       oracle _ (CreateAgent (field body "speakerName") voiceId contextWindow)
         1%nat = Resolved agentId →
       let first := run oracle (POST_create_agent body) w in
       first.2 = inr (json (AgentResponse agentId))
       ∧ memoryService.getAgentId videoId (memory first.1) = Some agentId
       ∧ memoryService.getTranscript videoId (memory first.1)
         = Some segments
       ∧ agent_calls first.1 = S (agent_calls w)
       ∧ (agentId ≠ "" →
          ∀ (oracle' : Oracle) schedule body',
            field body' "videoId" = JStr videoId →
            truthy (field body' "speakerName") = true →
            let later := exec oracle' (idle first.1) schedule in
            step oracle' later (Arrive (POST_create_agent body'))
            = {| world := world later;
                 threads :=
                   threads later
                   ++ [Finished (json (AgentResponse agentId))];
                 clock := S (clock later) |})).
Proof.
  intros Hne. split.
  - intros s agentId segments schedule Hag Htr Hnil Hs.
    exact (memoized_from oracle s agentId segments schedule Hne Hag Htr
             Hnil Hs).
  - intros w body voiceId segments middle agentId Hid Hsp Htr Hmid Hag Hvo
      contextWindow Hcw Hreply first. subst first.
    destruct (transcript_record _ _ _ Htr) as (record & Hrec & Htr').
    assert (segments ≠ []) as Hnil by (intros ->; done).
    destruct segments as [|s0 segs]; [done|].
    unfold run, router, create_agent, try_catch. rewrite Hid, Hsp.
    rewrite (proj2 (truthy_JStr videoId) Hne). cbn.
    unfold memoryService_getVideoData. cbn.
    rewrite Hrec, Htr'. cbn. rewrite Hag. cbn. rewrite Hvo. cbn.
    unfold await_async, try_catch, bind.
    rewrite (getContextWindowForVideo_middle _ _ _ _ Htr Hmid). cbn.
    fold contextWindow. rewrite (as_truthy_Some _ Hcw). cbn.
    rewrite Hreply. cbn.
    assert (memoryService.getAgentId videoId
              (memoryService.setAgentId videoId agentId (memory w))
            = Some agentId) as Hstored.
    { unfold memoryService.getAgentId, memoryService.setAgentId,
        memoryService.setVideoData.
      rewrite lookup_insert_eq. done. }
    assert (memoryService.getTranscript videoId
              (memoryService.setAgentId videoId agentId (memory w))
            = Some (s0 :: segs)) as Hkept.
    { rewrite <- Htr. unfold memoryService.setAgentId.
      by apply (steady_setVideoData videoId _ w). }
    split; [done|]. split; [done|]. split; [done|].
    split; [calls_solve; rewrite ?length_app; simpl; lia|].
    intros Hagent oracle' schedule body' Hid' Hsp'.
    match goal with
    | |- context [exec oracle' (idle ?w0) schedule] =>
        refine (proj2 (memoized_from oracle' (idle w0) agentId (s0 :: segs)
                         schedule Hne _ Hkept Hnil _) body' Hid' Hsp')
    end.
    + cbn. rewrite Hstored. by apply as_truthy_Some.
    + by apply Forall_nil.
Qed.

End Memoized.

(** C6 (as stated) fails.  Four requests for the agent of the same
    video: the second arrives while the first awaits the collaborator,
    and both find no [agentId] and call the collaborator.  The first to
    resume stores [agent-6], which the third request is answered with;
    then the second resumes and overwrites it with [agent-9], which the
    fourth request is answered with. *)
Lemma create_agent_twice_when_requests_overlap :
  let req := Arrive (POST_create_agent sample_agent_body) in
  let s := @exec sample_env numbering_oracle (idle sample_prepared_world)
             [req; Settle 0; Resume 0; req; Settle 1; Resume 1;
              Settle 0; Resume 0; req; Settle 1; Resume 1; req] in
  agent_calls (world s) = 2%nat
  ∧ threads s = [Finished (json (AgentResponse "agent-6"));
                 Finished (json (AgentResponse "agent-9"));
                 Finished (json (AgentResponse "agent-6"));
                 Finished (json (AgentResponse "agent-9"))].
Proof. vm_compute. done. Qed.

(** The first request for the sample video creates [agent-1]; whatever
    arrives afterwards, here another request for the agent and a request
    to clone the voice that is still in flight, the next request for the
    agent is answered from the session store. *)
Lemma create_agent_is_memoized_witness :
  let req := POST_create_agent sample_agent_body in
  let first := @run sample_env sample_oracle req sample_prepared_world in
  let later :=
    @exec sample_env sample_oracle (idle first.1)
      [Arrive req; Arrive (POST_clone_voice sample_clone_body); Settle 1] in
  first.2 = inr (json (AgentResponse "agent-1"))
  ∧ agent_calls first.1 = S (agent_calls sample_prepared_world)
  ∧ @step sample_env sample_oracle later (Arrive req)
    = {| world := world later;
         threads := threads later ++ [Finished (json (AgentResponse "agent-1"))];
         clock := S (clock later) |}.
Proof.
  pose proof (proj2 (@create_agent_is_memoized sample_env "dQw4w9WgXcQ"
                       sample_oracle ltac:(done))
                sample_prepared_world sample_agent_body "voice-0"
                sample_transcript
                {| start := seconds 4; end_ := seconds 9;
                   text := "Welcome back. " |}
                "agent-1" eq_refl eq_refl eq_refl eq_refl eq_refl eq_refl
                ltac:(done) eq_refl) as (H1 & _ & _ & H4 & H5).
  split; [exact H1|]. split; [exact H4|].
  exact (H5 ltac:(done) sample_oracle
           [Arrive (POST_create_agent sample_agent_body);
            Arrive (POST_clone_voice sample_clone_body); Settle 1]
           sample_agent_body eq_refl eq_refl).
Defined.

(** ** The prepare pipeline *)

Lemma transcript_prepared videoId transcript voiceId m :
  memoryService.getTranscript videoId
    (memoryService.setVoiceId videoId voiceId
       (memoryService.setTranscript videoId transcript m))
  = Some transcript.
Proof. mem_solve. Qed.

Lemma cached_prepared videoId transcript voiceId pausedTime m :
  memoryService.getCachedContextWindow videoId pausedTime
    (memoryService.setVoiceId videoId voiceId
       (memoryService.setTranscript videoId transcript m))
  = memoryService.getCachedContextWindow videoId pausedTime m.
Proof. mem_solve. Qed.

Section Prepared.

Context {env : Env}.

(** C8.  On a server that knows no transcript for the video,
    [POST /get-context-window] with a body the schema accepts answers 404.
    [POST /prepare-context] for a reference of the video submits a job
    and answers 202 with its id; while the job has not run, the answer is
    still 404.  Once the worker has completed that job -- the pipeline
    has run for the video the job names --, the same request answers 200
    with the window of the transcript at the paused time, and caches
    it. *)
Theorem context_window_needs_a_transcript
    (oracle oracle' : Oracle) (body prepare : gmap string JValue)
    (videoId : string) (pausedTime : Qc) (w : World) :
  getContextWindowSchema body = inr (videoId, pausedTime) →
  extractVideoId (field prepare "videoUrl") = inr (Some videoId) →
  videoId ≠ "" →
  memory_wf (memory w) →
  queue_wf (queue w) →
  memoryService.getTranscript videoId (memory w) = None →
  resolves oracle 0 →
  let not_found :=
    inr (sendError 404 "Video transcript not found" NoDetails) in
  run oracle' (POST_get_context_window body) w = (w, not_found)
  ∧ let submitted := run oracle (POST_prepare_context prepare) w in
    ∃ jobId,
      submitted.2
      = inr {| status := 202;
               payload :=
                 JobAccepted
                   "Video processing has started in the background." jobId |}
      ∧ run oracle' (POST_get_context_window body) submitted.1
        = (submitted.1, not_found)
      ∧ ∀ transcript voiceId,
          let prepared :=
            worker_completes jobId transcript voiceId submitted.1 in
          let contextWindow :=
            getContextWindow transcript pausedTime
              MAX_CONTEXT_WINDOW_SECONDS in
          run oracle' (POST_get_context_window body) prepared
          = (with_memory
               (memoryService.cacheContextWindow videoId pausedTime
                  contextWindow)
               prepared,
             inr (json (GetContextWindowResponse contextWindow))).
Proof.
  intros Hschema Hx Hne Hwf Hq Hnone H0 not_found.
  pose proof (no_transcript_no_cached _ _ pausedTime Hwf Hnone) as Hcached.
  assert (∀ w', memory w' = memory w →
            run oracle' (POST_get_context_window body) w' = (w', not_found))
    as Hmissing.
  { intros w' Hm.
    unfold run, router, get_context_window, try_catch. rewrite Hschema. cbn.
    rewrite Hm, Hcached. unfold as_truthy. cbn. rewrite Hm, Hnone. done. }
  split; [by apply Hmissing|]. intros submitted.
  set (data := {| job_videoId := videoId;
                  job_videoUrl := field prepare "videoUrl";
                  job_speakerName :=
                    if truthy (field prepare "speakerName")
                    then field prepare "speakerName"
                    else JStr ("Speaker for " ++ videoId) |}).
  set (job := queue_add "process-video" data (queue w)).
  assert (submitted
          = (with_queue (λ q, (q ++ [job])%list)
               (logged (QueueAdd "process-video" data) w),
             inr {| status := 202;
                    payload :=
                      JobAccepted
                        "Video processing has started in the background."
                        (id job) |})) as Hsubmitted.
  { subst submitted. unfold run, router, prepare_context,
      youtubeService_extractVideoId.
    rewrite Hx. cbn. rewrite (as_truthy_Some _ Hne). cbn. fold data.
    destruct (H0 _ (QueueAdd "process-video" data)) as [x0 ->]. cbn. done. }
  pose proof (queue_getJob_fresh (queue w) "process-video" data Hq)
    as Hfound.
  cbv zeta in Hfound. fold job in Hfound.
  exists (id job). rewrite Hsubmitted. cbn [fst snd].
  split; [done|]. split; [by apply Hmissing|].
  intros transcript voiceId. cbv zeta.
  unfold worker_completes. cbn [queue with_queue logged].
  rewrite Hfound. cbn [state job queue_add data job_videoId].
  unfold run, router, get_context_window, try_catch. rewrite Hschema. cbn.
  rewrite cached_prepared, Hcached. unfold as_truthy. cbn.
  rewrite transcript_prepared. done.
Qed.

End Prepared.

(** On a server that has just started: 404; the job for the sample
    video is accepted; and when the worker has completed it, whatever the
    transcript, the window is that of the transcript at 12 s. *)
Lemma context_window_needs_a_transcript_witness :
  let not_found :=
    inr (sendError 404 "Video transcript not found" NoDetails) in
  @run sample_env sample_oracle (POST_get_context_window sample_window_body)
    boot
  = (boot, not_found)
  ∧ let submitted :=
      @run sample_env sample_oracle
        (POST_prepare_context sample_instant_body) boot in
    ∃ jobId,
      submitted.2
      = inr {| status := 202;
               payload :=
                 JobAccepted
                   "Video processing has started in the background." jobId |}
      ∧ @run sample_env sample_oracle
          (POST_get_context_window sample_window_body) submitted.1
        = (submitted.1, not_found)
      ∧ ∀ transcript voiceId,
          let prepared :=
            worker_completes jobId transcript voiceId submitted.1 in
          let contextWindow :=
            buildContextWindow transcript (seconds 12) (seconds 30) in
          @run sample_env sample_oracle
            (POST_get_context_window sample_window_body) prepared
          = (with_memory
               (memoryService.cacheContextWindow "dQw4w9WgXcQ" (seconds 12)
                  contextWindow)
               prepared,
             inr (json (GetContextWindowResponse contextWindow))).
Proof.
  exact (@context_window_needs_a_transcript sample_env sample_oracle
           sample_oracle sample_window_body sample_instant_body
           "dQw4w9WgXcQ" (seconds 12) boot eq_refl eq_refl ltac:(done)
           boot_memory_wf boot_queue_wf eq_refl (sample_oracle_resolves 0)).
Defined.
